(** * Verification of the asset build orchestrator (odedshr/foundations)

    Shallow embedding of [src/builder/build.js], [src/builder/css.js],
    [src/builder/js.js] and of the static-file handler ([Static]), followed by
    the theorems that settle the specification's claims against them. *)

From Stdlib Require Import Ascii String ZArith Lia Bool.
From stdpp Require Import base option list strings sorting gmap.

Local Open Scope Z_scope.

(** ** JavaScript string primitives used by the sources *)

Module JsString.

Definition slash : ascii := "/"%char.

Definition isSlash (c : ascii) : bool := Ascii.eqb c slash.

(** [s.match(/\/$/)]: the text ends with a separator. *)
Fixpoint endsWithSlash (s : string) : bool :=
  match s with
  | EmptyString => false
  | String c EmptyString => isSlash c
  | String _ rest => endsWithSlash rest
  end.

(** [s.startsWith(p)]. *)
Fixpoint startsWith (p s : string) : bool :=
  match p, s with
  | EmptyString, _ => true
  | String _ _, EmptyString => false
  | String a p', String b s' => Ascii.eqb a b && startsWith p' s'
  end.

Fixpoint dropChars (n : nat) (s : string) : string :=
  match n, s with
  | O, _ => s
  | S _, EmptyString => EmptyString
  | S n', String _ s' => dropChars n' s'
  end.

(** [s.replace(pat, rep)] with a string pattern: only the leftmost
    occurrence is replaced. *)
Fixpoint replace (pat rep s : string) : string :=
  if startsWith pat s then rep +:+ dropChars (String.length pat) s
  else match s with
       | EmptyString => EmptyString
       | String c s' => String c (replace pat rep s')
       end.

(** The text holds two adjacent separators somewhere. *)
Fixpoint hasDoubleSlash (s : string) : bool :=
  match s with
  | EmptyString => false
  | String c s' => (isSlash c && startsWith "/" s') || hasDoubleSlash s'
  end.

(** Removes one leading separator, if any. *)
Definition stripLeadingSlash (s : string) : string :=
  match s with
  | String c s' => if isSlash c then s' else s
  | EmptyString => EmptyString
  end.

(** Removes one trailing separator, if any. *)
Fixpoint stripTrailingSlash (s : string) : string :=
  match s with
  | EmptyString => EmptyString
  | String c EmptyString => if isSlash c then EmptyString else s
  | String c rest => String c (stripTrailingSlash rest)
  end.

End JsString.

(** ** Path resolution ([build.js], [getAbsolutePath]) *)

Module Path.
Import JsString.

(** [getAbsolutePath(path, file)]; [cwd] stands for [process.cwd()]. *)
Definition getAbsolutePath (cwd path file : string) : string :=
  let path' :=
    if (0 <? Z.of_nat (String.length path)) && negb (endsWithSlash path)
    then path +:+ "/" else path in
  cwd +:+ "/" +:+ replace "//" "/" (path' +:+ file).

End Path.

(** The wording of the specification for [absolute(base, fragment)]: the two
    texts joined with exactly one separator between them. *)

Module PathSpec.
Import JsString.

Definition joinOnce (base fragment : string) : string :=
  match base with
  | EmptyString => fragment
  | _ => stripTrailingSlash base +:+ "/" +:+ stripLeadingSlash fragment
  end.

End PathSpec.

(** ** Runtime model: exceptions, promises, the file system *)

Module Runtime.
Import JsString.

(** Errors that the sources can raise or receive. *)
Inductive Err : Type :=
| ReferenceError (ident : string)            (* [ident] is not defined *)
| TypeError (what : string)                  (* [what] is not a function / not an object *)
| SystemError (code : string) (path : string) (* a failed [fs] call *)
| BackendError (msg : string)                (* raised by an external backend *)
| BadInput (subject : string) (msg : string) (* [Errors.BadInput] *)
| NotFound (what : string) (name : string)   (* [Errors.NotFound] *)
| RangeError.                                (* call stack exhausted *)

Global Instance Err_eq_dec : EqDecision Err.
Proof. solve_decision. Defined.

(** A synchronous call either returns or throws. *)
Inductive completion (A : Type) : Type :=
| Returns (a : A)
| Throws (e : Err).
Global Arguments Returns {A} a.
Global Arguments Throws {A} e.

(** A settled promise. *)
Inductive settled (A : Type) : Type :=
| Fulfilled (a : A)
| Rejected (e : Err).
Global Arguments Fulfilled {A} a.
Global Arguments Rejected {A} e.

(** The functions that are installed as error handlers: [console.error]
    ([defaultHandleError] of build.js), [console.log] (the default of the CSS
    module) and the callbacks of the user, told apart by a number. *)
Inductive sink : Type :=
| ConsoleError
| ConsoleLog
| UserHandler (id : nat).

Global Instance sink_eq_dec : EqDecision sink.
Proof. solve_decision. Defined.

Inductive node : Type :=
| File (content : string)
| Dir.

Global Instance node_eq_dec : EqDecision node.
Proof. solve_decision. Defined.

(** Everything the code reads or mutates outside its arguments. The disk maps
    normalised absolute paths ([/a/b], the root being the empty text) to
    nodes. *)
Record World : Type := mkWorld {
  cwd : string;                      (* [process.cwd()] *)
  disk : gmap string node;
  delivered : list (sink * Err);     (* handler calls, oldest first *)
  timed : list string;               (* labels given to [console.time] *)
  cssHandleError : sink;             (* [handleError] field of the CSS instance *)
  htmlHandleError : sink;            (* the same field of the html backend *)
  mapperHandleError : sink;          (* handler given to [mapper.onError] *)
  buildHandleError : sink            (* [handleError] field of the [Build] instance *)
}.

Definition setDisk (d : gmap string node) (w : World) : World :=
  mkWorld (cwd w) d (delivered w) (timed w)
          (cssHandleError w) (htmlHandleError w) (mapperHandleError w)
          (buildHandleError w).

Definition addDelivered (h : sink) (e : Err) (w : World) : World :=
  mkWorld (cwd w) (disk w) (delivered w ++ [(h, e)]) (timed w)
          (cssHandleError w) (htmlHandleError w) (mapperHandleError w)
          (buildHandleError w).

Definition addTimed (label : string) (w : World) : World :=
  mkWorld (cwd w) (disk w) (delivered w) (timed w ++ [label])
          (cssHandleError w) (htmlHandleError w) (mapperHandleError w)
          (buildHandleError w).

Definition setCssHandler (h : sink) (w : World) : World :=
  mkWorld (cwd w) (disk w) (delivered w) (timed w)
          h (htmlHandleError w) h (buildHandleError w).

Definition setHtmlHandler (h : sink) (w : World) : World :=
  mkWorld (cwd w) (disk w) (delivered w) (timed w)
          (cssHandleError w) h (mapperHandleError w) (buildHandleError w).

Definition setBuildHandler (h : sink) (w : World) : World :=
  mkWorld (cwd w) (disk w) (delivered w) (timed w)
          (cssHandleError w) (htmlHandleError w) (mapperHandleError w) h.

(** *** Synchronous code: state and exceptions *)

Definition Sync (A : Type) : Type := World -> completion A * World.

Definition ret {A} (a : A) : Sync A := fun w => (Returns a, w).
Definition throw {A} (e : Err) : Sync A := fun w => (Throws e, w).
Definition bind {A B} (m : Sync A) (k : A -> Sync B) : Sync B :=
  fun w => match m w with
           | (Returns a, w') => k a w'
           | (Throws e, w') => (Throws e, w')
           end.
Definition getWorld : Sync World := fun w => (Returns w, w).
Definition modify (f : World -> World) : Sync unit := fun w => (Returns tt, f w).

(** [xs.forEach(f)] and [xs.map(f)] for a callback that may throw. *)
Fixpoint forEach {A} (f : A -> Sync unit) (xs : list A) : Sync unit :=
  match xs with
  | [] => ret tt
  | x :: rest => bind (f x) (fun _ => forEach f rest)
  end.

Fixpoint mapSync {A B} (f : A -> Sync B) (xs : list A) : Sync (list B) :=
  match xs with
  | [] => ret []
  | x :: rest => bind (f x) (fun y => bind (mapSync f rest) (fun ys => ret (y :: ys)))
  end.

(** Reading an identifier: a name bound nowhere on the scope chain throws. *)
Definition resolveIdent (scope : list string) (ident : string) : Sync unit :=
  if bool_decide (ident ∈ scope) then ret tt else throw (ReferenceError ident).

(** Calling [obj.name(...)]: a missing member is [undefined], and calling
    it throws. *)
Definition resolveMethod (members : list string) (obj name : string) : Sync unit :=
  if bool_decide (name ∈ members) then ret tt
  else throw (TypeError (obj +:+ "." +:+ name +:+ " is not a function")).

(** Calling a handler function with an error. *)
Definition callHandler (h : sink) (e : Err) : Sync unit := modify (addDelivered h e).

(** *** Promises

    A promise is the deferred work it stands for: run on a world, it settles.
    [Promise.all] settles its members in list order (the sources fix no order
    between entries), keeps running after a rejection and rejects with the
    first one. *)

Definition Promise (A : Type) : Type := World -> settled A * World.

Definition resolved {A} (a : A) : Promise A := fun w => (Fulfilled a, w).
Definition rejected {A} (e : Err) : Promise A := fun w => (Rejected e, w).

(** [new Promise(resolve => resolve(body()))]: a throw of the body rejects. *)
Definition promiseOf {A} (body : Sync A) : Promise A :=
  fun w => match body w with
           | (Returns a, w') => (Fulfilled a, w')
           | (Throws e, w') => (Rejected e, w')
           end.

(** [p.then(f)] for a callback returning a plain value. *)
Definition then_ {A B} (p : Promise A) (f : A -> Sync B) : Promise B :=
  fun w => match p w with
           | (Fulfilled a, w') => promiseOf (f a) w'
           | (Rejected e, w') => (Rejected e, w')
           end.

(** [p.then(f)] for a callback returning a promise. *)
Definition thenP {A B} (p : Promise A) (f : A -> Promise B) : Promise B :=
  fun w => match p w with
           | (Fulfilled a, w') => f a w'
           | (Rejected e, w') => (Rejected e, w')
           end.

(** [p.catch(h)]. *)
Definition catch_ {A} (p : Promise A) (h : Err -> Sync A) : Promise A :=
  fun w => match p w with
           | (Fulfilled a, w') => (Fulfilled a, w')
           | (Rejected e, w') => promiseOf (h e) w'
           end.

Fixpoint all {A} (ps : list (Promise A)) : Promise (list A) :=
  match ps with
  | [] => resolved []
  | p :: rest =>
      fun w => match p w with
               | (Fulfilled a, w') =>
                   match all rest w' with
                   | (Fulfilled l, w'') => (Fulfilled (a :: l), w'')
                   | (Rejected e, w'') => (Rejected e, w'')
                   end
               | (Rejected e, w') => (Rejected e, snd (all rest w'))
               end
  end.

(** A call that returned a promise, the promise then being settled. *)
Definition settle {A} (r : completion (Promise A) * World) : option (settled A * World) :=
  match r with
  | (Returns p, w) => Some (p w)
  | (Throws _, _) => None
  end.

End Runtime.

(** ** Node's [fs] and [glob] over the modelled disk *)

Module Fs.
Import JsString Runtime.

(** [s.split('/')]. *)
Fixpoint split (s : string) : list string :=
  match s with
  | EmptyString => [EmptyString]
  | String c s' =>
      if isSlash c then EmptyString :: split s'
      else match split s' with
           | h :: t => String c h :: t
           | [] => [String c EmptyString]
           end
  end.

(** [segs.join('/')]. *)
Fixpoint join (segs : list string) : string :=
  match segs with
  | [] => EmptyString
  | [s] => s
  | s :: rest => s +:+ "/" +:+ join rest
  end.

(** [s.substring(0, s.lastIndexOf('/'))]: the text before the last separator,
    empty when there is none. *)
Definition dirPart (s : string) : string := join (removelast (split s)).

(** [s.substr(s.lastIndexOf('/') + 1)]: the text after the last separator. *)
Definition baseName (s : string) : string := List.last (split s) EmptyString.

Definition nonEmpty (s : string) : bool :=
  match s with EmptyString => false | _ => true end.

(** The key of a path on the disk: resolved against the working directory,
    with repeated and trailing separators dropped. The segments [.] and [..]
    are not interpreted. *)
Definition fsKey (cwd p : string) : string :=
  let full := if startsWith "/" p then p else cwd +:+ "/" +:+ p in
  fold_right (fun seg acc => "/" +:+ seg +:+ acc) EmptyString
             (List.filter nonEmpty (split full)).

Definition nodeAt (w : World) (k : string) : option node :=
  match k with
  | EmptyString => Some Dir
  | _ => disk w !! k
  end.

(** What a path names, if anything; a path with a trailing separator names
    directories only, the empty path names nothing. *)
Definition lookupNode (w : World) (p : string) : option node :=
  match p with
  | EmptyString => None
  | _ => match nodeAt w (fsKey (cwd w) p) with
         | Some (File c) => if endsWithSlash p then None else Some (File c)
         | r => r
         end
  end.

Definition parentIsDir (w : World) (k : string) : bool :=
  match nodeAt w (dirPart k) with
  | Some Dir => true
  | _ => false
  end.

(** [fs.existsSync(p)]. *)
Definition existsSync (p : string) (w : World) : bool :=
  match lookupNode w p with Some _ => true | None => false end.

(** [fs.lstatSync(p).isDirectory()]. *)
Definition lstatIsDirectory (p : string) : Sync bool :=
  fun w => match lookupNode w p with
           | Some Dir => (Returns true, w)
           | Some (File _) => (Returns false, w)
           | None => (Throws (SystemError "ENOENT" p), w)
           end.

(** [fs.mkdirSync(p)]. *)
Definition mkdirSync (p : string) : Sync unit :=
  fun w =>
    match p with
    | EmptyString => (Throws (SystemError "ENOENT" p), w)
    | _ =>
        let k := fsKey (cwd w) p in
        match nodeAt w k with
        | Some _ => (Throws (SystemError "EEXIST" p), w)
        | None =>
            if parentIsDir w k then (Returns tt, setDisk (<[k := Dir]> (disk w)) w)
            else (Throws (SystemError "ENOENT" p), w)
        end
    end.

(** Writing a regular file at [p], as [copyFileSync] and [writeFileSync] do. *)
Definition putFile (p content : string) : Sync unit :=
  fun w =>
    match p with
    | EmptyString => (Throws (SystemError "ENOENT" p), w)
    | _ =>
        let k := fsKey (cwd w) p in
        match nodeAt w k with
        | Some Dir => (Throws (SystemError "EISDIR" p), w)
        | _ =>
            if endsWithSlash p then (Throws (SystemError "ENOTDIR" p), w)
            else if parentIsDir w k
                 then (Returns tt, setDisk (<[k := File content]> (disk w)) w)
                 else (Throws (SystemError "ENOENT" p), w)
        end
    end.

(** [fs.writeFileSync(p, content)]. *)
Definition writeFileSync (p content : string) : Sync unit := putFile p content.

(** [fs.copyFileSync(src, dst)]: it throws on failure and returns
    [undefined]; a directory cannot be copied with it. *)
Definition copyFileSync (src dst : string) : Sync unit :=
  fun w =>
    match lookupNode w src with
    | None => (Throws (SystemError "ENOENT" src), w)
    | Some Dir => (Throws (SystemError "EISDIR" src), w)
    | Some (File c) => putFile dst c w
    end.

(** [fs.unlinkSync(p)]. *)
Definition unlinkSync (p : string) : Sync unit :=
  fun w =>
    match lookupNode w p with
    | None => (Throws (SystemError "ENOENT" p), w)
    | Some Dir => (Throws (SystemError "EISDIR" p), w)
    | Some (File _) => (Returns tt, setDisk (delete (fsKey (cwd w) p) (disk w)) w)
    end.

(** *** [glob.sync] *)

Definition star : ascii := "*"%char.

Fixpoint hasStar (s : string) : bool :=
  match s with
  | EmptyString => false
  | String c s' => Ascii.eqb c star || hasStar s'
  end.

Fixpoint hasSlash (s : string) : bool :=
  match s with
  | EmptyString => false
  | String c s' => isSlash c || hasSlash s'
  end.

(** A name against a pattern segment in which [*] stands for any run of
    characters. *)
Fixpoint wildMatch (pat name : string) : bool :=
  match pat with
  | EmptyString => negb (nonEmpty name)
  | String c pat' =>
      if Ascii.eqb c star then
        (fix anyRun (s : string) : bool :=
           wildMatch pat' s
           || match s with
              | EmptyString => false
              | String _ s' => anyRun s'
              end) name
      else match name with
           | EmptyString => false
           | String d name' => Ascii.eqb c d && wildMatch pat' name'
           end
  end.

(** A wildcard does not match a name with a leading dot. *)
Definition segmentMatch (pat name : string) : bool :=
  wildMatch pat name && (negb (startsWith "." name) || startsWith "." pat).

(** Names of the entries directly inside the directory with key [dk]. *)
Definition childNames (w : World) (dk : string) : list string :=
  omap (fun k =>
          if startsWith (dk +:+ "/") k then
            let name := dropChars (String.length dk + 1) k in
            if nonEmpty name && negb (hasSlash name) then Some name else None
          else None)
       (merge_sort String.le (map fst (map_to_list (disk w)))).

(** [glob.sync(pattern, {})] for the patterns these sources build: a plain
    path matches itself when it exists; a pattern whose last segment holds
    [*] matches the entries of its directory. Other glob operators and
    wildcards in directory segments are read literally. *)
Definition globSync (pattern : string) (w : World) : list string :=
  if hasStar (baseName pattern) then
    let dir := dirPart pattern in
    let dk := fsKey (cwd w) (if hasSlash pattern then dir +:+ "/" else cwd w) in
    match nodeAt w dk with
    | Some Dir =>
        map (fun name => if hasSlash pattern then dir +:+ "/" +:+ name else name)
            (List.filter (segmentMatch (baseName pattern)) (childNames w dk))
    | _ => []
    end
  else if existsSync pattern w then [pattern] else [].

End Fs.

(** ** Entry declarations ([build.js], [getMappedEntries]) *)

Module Entries.
Import JsString Runtime Path.

(** The value of one key of [appMap.entries]: a path, an array of paths or an
    object with [source], [external] and [format]. The same shape serves for
    the resolved entry. *)
Inductive Entry : Type :=
| StringEntry (path : string)
| ListEntry (paths : list string)
| ObjectEntry (source : Entry) (external : option (list string)) (format : option string).

(** [getMappedEntries(source, entry)]. *)
Fixpoint getMappedEntries (cwd source : string) (entry : Entry) : Entry :=
  match entry with
  | ObjectEntry src ext fmt => ObjectEntry (getMappedEntries cwd source src) ext fmt
  | ListEntry sources => ListEntry (map (fun file => getAbsolutePath cwd source file) sources)
  | StringEntry e => ListEntry (map (fun file => getAbsolutePath cwd source file) [e])
  end.

(** The paths an entry lists, in order. *)
Fixpoint sourcePaths (entry : Entry) : list string :=
  match entry with
  | StringEntry p => [p]
  | ListEntry l => l
  | ObjectEntry src _ _ => sourcePaths src
  end.

Definition externalOf (entry : Entry) : option (list string) :=
  match entry with
  | ObjectEntry _ ext _ => ext
  | _ => None
  end.

Definition formatOf (entry : Entry) : option string :=
  match entry with
  | ObjectEntry _ _ fmt => fmt
  | _ => None
  end.

(** A well-formed entry: the [source] of an object is a path or a list. *)
Definition wellFormed (entry : Entry) : bool :=
  match entry with
  | ObjectEntry (ObjectEntry _ _ _) _ _ => false
  | _ => true
  end.

(** What a backend's [compile] resolves with. *)
Record Response : Type := mkResponse {
  files : list string;
  content : string
}.

(** What one entry of [once] settles with. *)
Inductive Result : Type :=
| Compiled (r : Response)       (* the response of [compile] *)
| Copied (n : nat)              (* [Promise.all] over [n] callbacks returning [undefined] *)
| Undefined.                    (* the value of a handler call *)

End Entries.

(** ** The static-file handler ([Static]) *)

Module Static.
Import JsString Runtime Fs Entries.

(** [getFileTargt(file, target)]. *)
Definition getFileTargt (file target : string) : string :=
  if endsWithSlash target then target +:+ baseName file else target.

(** The [reduce] of [validatePathExists]. *)
Fixpoint validateSegments (acc : string) (folders : list string) : Sync unit :=
  match folders with
  | [] => ret tt
  | folder :: rest =>
      let acc' := acc +:+ folder in
      bind (fun w => if existsSync acc' w then ret tt w else mkdirSync acc' w)
           (fun _ => validateSegments (acc' +:+ "/") rest)
  end.

(** [validatePathExists(path)]. *)
Definition validatePathExists (path : string) : Sync unit :=
  validateSegments EmptyString (split path).

(** [copy(source, target)] for an array of patterns. [depth] bounds the
    nesting of the recursive calls: beyond it the call throws as an
    exhausted call stack does. The promises made inside [forEach] are dropped
    there, so the outer [map] callback returns [undefined] for every source
    and only the length of the array reaches [Promise.all]. *)
Fixpoint copyPatterns (depth : nat) (sources : list string) (target : string)
  : Sync nat :=
  match depth with
  | O => throw RangeError
  | S depth' =>
      bind (validatePathExists (dirPart target)) (fun _ =>
      bind (forEach (fun source =>
              bind getWorld (fun w =>
              forEach (fun file =>
                let fileTarget := getFileTargt file target in
                bind (copyFileSync file fileTarget) (fun _ =>
                bind (lstatIsDirectory target) (fun isDir =>
                if negb isDir then ret tt
                else bind (copyPatterns depth' [file +:+ "/*.*"] (fileTarget +:+ "/"))
                          (fun _ => ret tt))))
                (globSync source w)))
              sources) (fun _ =>
      ret (length sources)))
  end.

(** [copy(source, target)] as build.js calls it, with whatever value the
    entry resolved to. An object is wrapped in a one-element array and
    reaches [glob.sync], which accepts pattern strings only. *)
Definition copy (depth : nat) (source : Entry) (target : string)
  : Sync (Promise Result) :=
  match source with
  | StringEntry s =>
      bind (copyPatterns depth [s] target) (fun n => ret (resolved (Copied n)))
  | ListEntry l =>
      bind (copyPatterns depth l target) (fun n => ret (resolved (Copied n)))
  | ObjectEntry _ _ _ =>
      bind (validatePathExists (dirPart target)) (fun _ =>
      throw (TypeError "glob pattern string required"))
  end.

(** [mapFile(fileName)]: the second argument of a caller is dropped. *)
Definition mapFile (fileName : string) (_ : option (list string))
  : Promise (list string) :=
  promiseOf (fun w => (Returns (globSync fileName w), w)).

End Static.

(** ** The CSS backend ([css.js]) *)

Module Css.
Import JsString Runtime Entries.

Definition dquote : string := String (Ascii.ascii_of_nat 34) EmptyString.

(** [importPattern] of css.js. *)
Definition importPattern : string :=
  "^@import.*([" +:+ dquote +:+ "'])(.*)\1.*$".

Section Backend.
(** The collaborators of the module, none of them under [src]:
    [mapper.load] and [mapper.map], [nodeSass.renderSync], the postcss
    processor and CleanCSS. *)
Variable mapperLoad : Entry -> string -> Sync Response.
Variable mapperMap : string -> string -> Sync (list string).
Variable sassRender : string -> Sync string.
Variable prefixProcess : string -> Promise string.
Variable cleanMinify : string -> Sync string.

(** [this.handleError(err)]: the field is read when the call happens. *)
Definition handleError (err : Err) : Sync unit :=
  fun w => callHandler (cssHandleError w) err w.

(** [loadFile(fileName)]. *)
Definition loadFile (fileName : Entry) : Promise Response :=
  promiseOf (mapperLoad fileName importPattern).

(** [sass(scss)]. *)
Definition sass (scss : string) : Promise string := promiseOf (sassRender scss).

(** [prefix(css)]. *)
Definition prefix (css : string) : Promise string := prefixProcess css.

(** [minify(css)]. *)
Definition minify (css : string) : Promise string := promiseOf (cleanMinify css).

(** The pipeline behind the inner [catch]: prefixing, then minifying. The
    second argument given to [then] in the source is a string, which a
    promise ignores as a rejection callback. *)
Definition pipeline (css : string) : Promise string := thenP (prefix css) minify.

(** [compile(fileName)]. *)
Definition compile (fileName : Entry) : Promise Response :=
  catch_
    (thenP (loadFile fileName) (fun fileSet =>
       if (Z.of_nat (String.length (content fileSet)) =? 0)
       then resolved fileSet
       else
         then_
           (thenP
              (thenP
                 (catch_ (sass (content fileSet))
                         (fun err => bind (handleError err) (fun _ => ret EmptyString)))
                 prefix)
              minify)
           (fun compiledAndMinified =>
              ret (mkResponse (files fileSet) compiledAndMinified))))
    (fun err => bind (handleError err) (fun _ => ret (mkResponse [] EmptyString))).

(** [mapFile(fileName)]: declared with one parameter, so a second argument
    of the caller is dropped. *)
Definition mapFile (fileName : string) (_ : option (list string))
  : Promise (list string) :=
  promiseOf (mapperMap fileName importPattern).

(** [onError(handler)]. *)
Definition onError (handler : sink) : Sync unit := modify (setCssHandler handler).

End Backend.

End Css.

(** ** The script backend ([js.js]) *)

Module Js.
Import JsString Runtime Entries.

(** [importPattern] and [defaultFormat] of js.js. *)
Definition importPattern : string :=
  "import.*([" +:+ Css.dquote +:+ "\'])(.*\.js)\1".
Definition defaultFormat : string := "cjs".

(** The members of the exported object. *)
Definition members : list string :=
  ["compile"; "minify"; "transpile"; "mapFile"; "loadFiles"; "loadFile"].

Section Backend.
(** The collaborators: [mapNested] (map-nested.js), rollup, babel and
    UglifyJS. *)
Variable mapNested : string -> string -> list string -> Sync (list string).
Variable rollupGenerate : string -> string -> list string -> Promise Response.
Variable babelTransform : string -> Sync string.
Variable uglify : string -> settled string.

(** [loadFile(input, format, external)]. *)
Definition loadFile (input format : string) (external : list string)
  : Promise Response :=
  rollupGenerate input format external.

(** [loadFiles(input, format, external)]. *)
Definition loadFiles (input : list string) (format : string) (external : list string)
  : Promise Response :=
  then_ (all (map (fun file => loadFile file format external) input))
        (fun res =>
           ret (fold_left
                  (fun memo item =>
                     mkResponse (files memo ++ files item) (content memo +:+ content item))
                  res (mkResponse [] EmptyString))).

(** [transpile(esCode)]. *)
Definition transpile (esCode : string) : Promise string :=
  promiseOf (babelTransform esCode).

(** [minify(jsCode)]. *)
Definition minify (jsCode : string) : Promise string :=
  fun w => (uglify jsCode, w).

(** [compile(options)]. An empty [format] is falsy and gives way to the
    default; the [source] of an object is taken as the path or the array of
    paths it is for a well-formed entry. *)
Definition compile (options : Entry) : Promise Response :=
  let '(filenames, external, format) :=
    match options with
    | ListEntry l => (l, [], defaultFormat)
    | ObjectEntry src ext fmt =>
        (sourcePaths src, default [] ext,
         match fmt with
         | Some f => if Fs.nonEmpty f then f else defaultFormat
         | None => defaultFormat
         end)
    | StringEntry s => ([s], [], defaultFormat)
    end in
  thenP (loadFiles filenames format external) (fun fileSet =>
    if (Z.of_nat (String.length (content fileSet)) =? 0)
    then resolved fileSet
    else then_ (thenP (transpile (content fileSet)) minify)
               (fun transpiledAndUglified =>
                  ret (mkResponse (files fileSet) transpiledAndUglified))).

(** [mapFile(fileName, external = [])]. *)
Definition mapFile (fileName : string) (external : option (list string))
  : Promise (list string) :=
  promiseOf (mapNested fileName importPattern (default [] external)).

End Backend.

End Js.

(** ** The orchestrator ([build.js]) *)

Module Build.
Import JsString Runtime Fs Path Entries.

Definition WATCH_TIMEOUT : Z := 2000.

(** The keys of [types], in the order of the [Map]. *)
Inductive TypeId : Type := IdJs | IdCss | IdHtml | IdFiles.

Global Instance TypeId_eq_dec : EqDecision TypeId.
Proof. solve_decision. Defined.

Definition endsWith (suffix s : string) : bool :=
  startsWith (String.rev suffix) (String.rev s).

(** [type.regExp.test(fileName)]. *)
Definition regExpTest (t : TypeId) (fileName : string) : bool :=
  match t with
  | IdJs => endsWith ".js" fileName
  | IdCss => endsWith ".css" fileName
  | IdHtml => endsWith ".html" fileName
  | IdFiles => endsWith "/" fileName
  end.

Definition types : list TypeId := [IdJs; IdCss; IdHtml; IdFiles].

(** [getFileType(fileName)]. *)
Definition getFileType (fileName : string) : TypeId :=
  match List.find (fun t => regExpTest t fileName) types with
  | Some t => t
  | None => IdFiles
  end.

(** [removeFileIfRedundant(file, entries, destPath)]. [entries] is whatever
    value the caller holds; only an array has [find]. *)
Definition removeFileIfRedundant (file : string) (entries : Entry) (destPath : string)
  : Sync unit :=
  match entries with
  | ListEntry l =>
      fun w =>
        let found :=
          List.find (fun entry =>
                       if String.eqb entry file then existsSync entry w
                       else if endsWithSlash entry then existsSync (entry +:+ file) w
                       else false) l in
        let falsy := match found with Some e => negb (nonEmpty e) | None => true end in
        if falsy && existsSync (destPath +:+ file) w
        then unlinkSync (destPath +:+ file) w
        else ret tt w
  | _ => throw (TypeError "entries.find is not a function")
  end.

(** The shape of the compiling handlers of [types]. *)
Record Backend : Type := mkBackend {
  compile : Entry -> Promise Response;
  mapFile : string -> option (list string) -> Promise (list string)
}.

(** The application map. [entries] keeps the key order of the object. *)
Record AppMap : Type := mkAppMap {
  source : option string;
  target : option string;
  entries : option (list (string * Entry))
}.

(** [once] and [live] take the map or the name of its file. *)
Inductive MapArg : Type :=
| MapFileName (name : string)
| MapObject (m : AppMap).

(** Names bound at module level in build.js, and the globals it uses. *)
Definition moduleScope : list string :=
  ["existsSync"; "readFileSync"; "unlinkSync"; "writeFileSync"; "watch";
   "Errors"; "colors"; "css"; "html"; "js"; "files";
   "defaultHandleError"; "WATCH_TIMEOUT"; "types";
   "logged"; "padTwoDigits"; "readMapFile"; "getAbsolutePath";
   "getAbsolutePathes"; "getWatcherPromises"; "getWatchers"; "getFileType";
   "writeToFile"; "removeFileIfRedundant"; "getMappedEntries"; "once"; "live";
   "Build"; "build";
   "console"; "process"; "Promise"; "Object"; "Array"; "Map"; "JSON"; "Date";
   "setTimeout"; "undefined"].

Definition readMapFileScope : list string := "mapFile" :: moduleScope.
Definition onceScope : list string :=
  ["appMap"; "handleError"; "source"; "target"] ++ moduleScope.

(** One element of the array [getWatchers] returns, with the variable
    [timeOut] of its closure and the values the closure captured. *)
Record Watcher : Type := mkWatcher {
  file : string;
  options : option Entry;
  rootFile : string;
  output : string;
  targetDir : string;
  timeOut : option nat
}.

(** The handlers of [types] and the parts of the imported modules that are
    not under [src], as one table handed to the orchestrator. *)
Record Collaborators : Type := mkCollaborators {
  jsBackend : Backend;
  cssBackend : Backend;
  htmlBackend : Backend;
  addPath : string -> Sync unit;          (* [files.addPath] *)
  parseMapFile : string -> Sync AppMap;   (* [JSON.parse(readFileSync(..))] *)
  stackDepth : nat                        (* depth of the call stack *)
}.

Section Orchestrator.
Variable deps : Collaborators.

Definition handlerOf (t : TypeId) : Backend :=
  match t with
  | IdJs => jsBackend deps
  | IdCss => cssBackend deps
  | IdHtml => htmlBackend deps
  | IdFiles => mkBackend (fun _ => rejected (TypeError "compile is not a function"))
                         Static.mapFile
  end.

(** [logged(label, method)]: the label goes to [console.time] and the
    method runs once. The value of the method is handed on, so that the
    work of a promise it returned is not lost; the clock prefix of the
    label is left out. *)
Definition logged {A} (label : string) (method : Sync A) : Sync A :=
  bind (modify (addTimed label)) (fun _ => method).

(** [readMapFile(mapFile)]: the body names [fileName]. *)
Definition readMapFile (mapFile : string) : Sync AppMap :=
  bind (resolveIdent readMapFileScope "fileName") (fun _ =>
  fun w => if existsSync mapFile w then parseMapFile deps mapFile w
           else throw (NotFound "map.json" mapFile) w).

(** [writeToFile(targetPath, targetFileName, sourceFile, fileTypeDef,
    triggeredByFile)]. *)
Definition writeToFile (targetPath targetFileName : string) (sourceFile : Entry)
           (fileTypeDef : TypeId) (triggeredByFile : option string)
  : Sync (Promise Result) :=
  bind getWorld (fun w =>
  let absoluteTarget := getAbsolutePath (cwd w) targetPath targetFileName in
  match fileTypeDef with
  | IdFiles =>
      bind (match triggeredByFile with
            | Some f => removeFileIfRedundant f sourceFile
                          (targetPath +:+ "/" +:+ targetFileName)
            | None => ret tt
            end) (fun _ =>
      Static.copy (stackDepth deps) sourceFile
                  (getAbsolutePath (cwd w) targetPath targetFileName))
  | t =>
      ret (then_ (compile (handlerOf t) sourceFile) (fun response =>
             bind (addPath deps (dirPart absoluteTarget)) (fun _ =>
             bind (writeFileSync absoluteTarget (content response)) (fun _ =>
             ret (Compiled response)))))
  end).

(** [p.catch(handleError)] on the promise of one entry. *)
Definition caught (handleError : sink) (p : Promise Result) : Promise Result :=
  catch_ p (fun e => bind (callHandler handleError e) (fun _ => ret Undefined)).

Definition loadMap (appMap : MapArg) : Sync AppMap :=
  match appMap with
  | MapFileName name => readMapFile name
  | MapObject m => ret m
  end.

(** [once(appMap, handleError)]. *)
Definition once (appMap : MapArg) (handleError : sink)
  : Sync (Promise (list Result)) :=
  bind (loadMap appMap) (fun m =>
  let source := default EmptyString (source m) in
  let target := default EmptyString (target m) in
  bind (match entries m with
        | None =>
            bind (resolveIdent onceScope "mapFile") (fun _ =>
            callHandler handleError (BadInput "mapFile" "Missing `source` property"))
        | Some _ => ret tt
        end) (fun _ =>
  match entries m with
  | None => throw (TypeError "Cannot convert undefined or null to object")
  | Some es =>
      bind getWorld (fun w =>
      bind (mapSync (fun '(entry, spec) =>
              bind (writeToFile target entry
                      (getMappedEntries (cwd w) source spec)
                      (getFileType entry) None) (fun p =>
              ret (caught handleError p))) es) (fun ps =>
      ret (all ps)))
  end)).

(** [getAbsolutePathes(path, entries)]. *)
Definition getAbsolutePathes (cwd path : string) (es : list (string * Entry))
  : list (string * Entry) :=
  map (fun '(entry, spec) => (entry, getMappedEntries cwd path spec)) es.

(** [getWatchers(rootFile, files, output, target, options, handleError)]:
    [handleError] is received and not used. *)
Definition getWatchers (rootFile : string) (files : list string) (output target : string)
           (options : option Entry) (handleError : sink) : list Watcher :=
  map (fun file => mkWatcher file options rootFile output target None) files.

(** [getWatcherPromises(output, files, mapFunc, target, handleError)]. An
    object has a truthy [source] and is taken apart; whatever is left must be
    an array, as only arrays have [map]. *)
Definition getWatcherPromises (output : string) (files : Entry)
           (mapFunc : string -> option (list string) -> Promise (list string))
           (target : string) (handleError : sink)
  : Sync (list (Promise (list Watcher))) :=
  let '(options, external, files') :=
    match files with
    | ObjectEntry src ext _ => (Some files, ext, src)
    | _ => (None, None, files)
    end in
  match files' with
  | ListEntry l =>
      ret (map (fun file =>
                  then_ (mapFunc file external) (fun results =>
                    ret (getWatchers file results output target options handleError)))
               l)
  | _ => throw (TypeError "files.map is not a function")
  end.

(** [live(appMap, handleError)]. *)
Definition live (appMap : MapArg) (handleError : sink)
  : Sync (Promise (list Watcher)) :=
  bind (loadMap appMap) (fun m =>
  let target := default EmptyString (target m) in
  match entries m with
  | None => throw (TypeError "Cannot convert undefined or null to object")
  | Some es =>
      bind getWorld (fun w =>
      let entries := getAbsolutePathes (cwd w) (default EmptyString (source m)) es in
      bind (mapSync (fun '(entry, spec) =>
              getWatcherPromises entry spec (mapFile (handlerOf (getFileType entry)))
                                 target handleError) entries) (fun pss =>
      ret (then_ (all (concat pss)) (fun watcheArrays => ret (concat watcheArrays)))))
  end).

(** *** Watching: the [raw] listener and its timer

    The event loop holds the watchers that [live] resolved with, the
    timers that [setTimeout] armed and a clock in milliseconds. A throw
    out of a timer callback is uncaught; a rejection of the promise the
    rebuild returned has no handler. *)

Record Timer : Type := mkTimer {
  handle : nat;
  due : Z;
  owner : nat;            (* index of the watcher whose listener armed it *)
  eventPath : string      (* [path] of the [raw] event that armed it *)
}.

Record Loop : Type := mkLoop {
  world : World;
  clock : Z;
  watchers : list Watcher;
  timers : list Timer;
  nextHandle : nat;
  uncaught : list Err;
  unhandled : list Err
}.

Inductive Event : Type :=
| Raw (i : nat) (path : string)   (* a [raw] notification of watcher [i] *)
| Elapse (dt : Z).                (* [dt] milliseconds pass *)

Definition setTimeOut (v : option nat) (wt : Watcher) : Watcher :=
  mkWatcher (file wt) (options wt) (rootFile wt) (output wt) (targetDir wt) v.

(** The listener given to [.on('raw', ...)]. *)
Definition onRaw (i : nat) (path : string) (l : Loop) : Loop :=
  match watchers l !! i with
  | Some wt =>
      match timeOut wt with
      | None =>
          mkLoop (world l) (clock l)
                 (<[i := setTimeOut (Some (nextHandle l)) wt]> (watchers l))
                 (timers l ++ [mkTimer (nextHandle l) (clock l + WATCH_TIMEOUT) i path])
                 (S (nextHandle l)) (uncaught l) (unhandled l)
      | Some _ => l
      end
  | None => l
  end.

(** The bound [writeToFile] of the timer callback. *)
Definition rebuild (wt : Watcher) (path : string) : Sync (Promise Result) :=
  writeToFile (targetDir wt) (output wt)
              (default (StringEntry (rootFile wt)) (options wt))
              (getFileType (output wt)) (Some path).

Definition recompiledLabel (out : string) : string := "Recompiled " +:+ out.

(** The timer callback: [logged(..., method)], then [timeOut = null]. *)
Definition fire (t : Timer) (l : Loop) : Loop :=
  match watchers l !! owner t with
  | Some wt =>
      match logged (recompiledLabel (output wt)) (rebuild wt (eventPath t)) (world l) with
      | (Returns p, w') =>
          let '(outcome, w'') := p w' in
          mkLoop w'' (clock l)
                 (<[owner t := setTimeOut None wt]> (watchers l))
                 (timers l) (nextHandle l) (uncaught l)
                 (unhandled l ++ match outcome with
                                 | Rejected e => [e]
                                 | Fulfilled _ => []
                                 end)
      | (Throws e, w') =>
          mkLoop w' (clock l) (watchers l) (timers l) (nextHandle l)
                 (uncaught l ++ [e]) (unhandled l)
      end
  | None => l
  end.

Definition isDue (c : Z) (t : Timer) : bool := due t <=? c.

(** Time passes: the timers that came due run, oldest first. *)
Definition elapse (dt : Z) (l : Loop) : Loop :=
  let c := clock l + dt in
  fold_left (fun acc t => fire t acc)
            (List.filter (isDue c) (timers l))
            (mkLoop (world l) c (watchers l)
                    (List.filter (fun t => negb (isDue c t)) (timers l))
                    (nextHandle l) (uncaught l) (unhandled l)).

Definition step (l : Loop) (ev : Event) : Loop :=
  match ev with
  | Raw i path => onRaw i path l
  | Elapse dt => elapse dt l
  end.

Definition run (evs : list Event) (l : Loop) : Loop := fold_left step evs l.

(** The loop right after [live] resolved with [ws]. *)
Definition watching (w : World) (ws : list Watcher) : Loop :=
  mkLoop w 0 ws [] O [] [].

(** *** The [Build] facade *)

(** [build.once(appMap)]: the module function is called with the map
    alone, so its [handleError] takes the default. *)
Definition facadeOnce (appMap : MapArg) : Sync (Promise (list Result)) :=
  once appMap ConsoleError.

(** [build.live(appMap)]. *)
Definition facadeLive (appMap : MapArg) : Sync (Promise (list Watcher)) :=
  live appMap ConsoleError.

(** Modelled from the spec: [html.onError] (html.js is not under [src]);
    the handler is "propagated to every backend", so the html backend
    stores it as the CSS one does. *)
Definition htmlOnError (handler : sink) : Sync unit := modify (setHtmlHandler handler).

(** [build.onError(handler)]. *)
Definition facadeOnError (handler : sink) : Sync unit :=
  bind (modify (setBuildHandler handler)) (fun _ =>
  bind (Css.onError handler) (fun _ =>
  bind (htmlOnError handler) (fun _ =>
  resolveMethod Js.members "js" "onError"))).

End Orchestrator.

End Build.

(** ** Concrete projects used to run the model *)

Module Fixtures.
Import JsString Runtime Fs Entries Build.

Definition onDisk (d : list (string * node)) : World :=
  mkWorld "/w" (list_to_map d) [] [] ConsoleLog ConsoleLog ConsoleLog ConsoleError.

(** A rollup that fails to resolve [/w/bad.js] and bundles anything else. *)
Definition rollup (input format : string) (external : list string) : Promise Response :=
  if String.eqb input "/w/bad.js"
  then rejected (BackendError "Could not resolve entry module")
  else resolved (mkResponse [input] ("bundle of " +:+ input)).

(** A reference mapper that needs its root file to exist. *)
Definition mapNested (fileName pattern : string) (external : list string)
  : Sync (list string) :=
  fun w => if existsSync fileName w then ret [fileName] w
           else throw (SystemError "ENOENT" fileName) w.

(** A stylesheet mapper for a project whose sheets all import
    [/w/scss/lib.scss]. *)
Definition mapperMap (fileName pattern : string) : Sync (list string) :=
  ret [fileName; "/w/scss/lib.scss"].

Definition mapperLoad (fileName : Entry) (pattern : string) : Sync Response :=
  ret (mkResponse (sourcePaths fileName) "a { b: c }").

Definition jsFixture : Backend :=
  mkBackend (Js.compile rollup (fun code => ret code) (fun code => Fulfilled code))
            (Js.mapFile mapNested).

Definition cssFixture : Backend :=
  mkBackend (Css.compile mapperLoad (fun scss => ret scss)
                         (fun css => resolved css) (fun css => ret css))
            (Css.mapFile mapperMap).

Definition htmlFixture : Backend :=
  mkBackend (fun src => resolved (mkResponse (sourcePaths src) "<html></html>"))
            (fun fileName _ => resolved [fileName]).

Definition deps : Collaborators :=
  mkCollaborators jsFixture cssFixture htmlFixture
                  (fun _ => ret tt)
                  (fun name => throw (NotFound "map.json" name))
                  64.

(** A project with one script. *)
Definition scripts : World :=
  onDisk [("/w", Dir); ("/w/app.js", File "export default 1"); ("/w/dist", Dir)].

Definition scriptsMap : MapArg :=
  MapObject (mkAppMap None (Some "dist")
               (Some [("bad.js", StringEntry "bad.js"); ("app.js", StringEntry "app.js")])).

(** A project whose pass-through output [out/] was copied from [a.txt],
    the source having been deleted since. *)
Definition orphaned : World :=
  onDisk [("/w", Dir); ("/w/dist", Dir); ("/w/dist/out", Dir);
          ("/w/dist/out/a.txt", File "a")].

Definition staticMap : MapArg :=
  MapObject (mkAppMap None (Some "dist")
               (Some [("out/", StringEntry "a.txt"); ("app.js", StringEntry "app.js")])).

(** The watcher [live] makes for [a.txt] of the output [out/], and the one
    for [app.js]. *)
Definition staticWatcher : Watcher :=
  mkWatcher "/w/a.txt" None "/w/a.txt" "out/" "dist" None.
Definition scriptWatcher : Watcher :=
  mkWatcher "/w/app.js" None "/w/app.js" "app.js" "dist" None.

(** A folder with a nested folder, to be copied. *)
Definition nested : World :=
  onDisk [("/w", Dir); ("/w/res", Dir); ("/w/res/sub", Dir);
          ("/w/res/sub/file2.1.html", File "two");
          ("/w/res/sub/sub2", Dir);
          ("/w/res/sub/sub2/file3.html", File "three")].

Definition paths (w : World) : list string :=
  merge_sort String.le (map fst (map_to_list (disk w))).

End Fixtures.

(** ** Vocabulary of the statements *)

Module Statements.
Import JsString Runtime Fs Path Entries Build.

(** What a settled call resolved or rejected with, and the handler calls
    made by then. *)
Definition outcome {A} (r : option (settled A * World)) : option (settled A) :=
  fst <$> r.
Definition deliveries {A} (r : option (settled A * World)) : list (sink * Err) :=
  match r with
  | Some (_, w) => delivered w
  | None => []
  end.

Definition thrown {A} (r : completion A * World) : option Err :=
  match fst r with
  | Throws e => Some e
  | Returns _ => None
  end.

(** The promise [writeToFile] builds for a compiled output. *)
Definition compiledJob (deps : Collaborators) (w : World) (target entry : string)
           (spec : Entry) : Promise Result :=
  then_ (compile (handlerOf deps (getFileType entry)) spec) (fun response =>
    bind (addPath deps (dirPart (getAbsolutePath (cwd w) target entry))) (fun _ =>
    bind (writeFileSync (getAbsolutePath (cwd w) target entry) (content response)) (fun _ =>
    ret (Compiled response)))).

(** Every output of the map has a compiling type. *)
Definition compiledOnly (es : list (string * Entry)) : Prop :=
  Forall (fun e => getFileType (fst e) <> IdFiles) es.

(** Entry after entry is attempted; a rejection goes to the handler and
    the next entry runs in the world that results. *)
Fixpoint attempts (h : sink) (ps : list (Promise Result)) (w : World)
  : list Result * World :=
  match ps with
  | [] => ([], w)
  | p :: rest =>
      match p w with
      | (Fulfilled r, w') =>
          let '(rs, w'') := attempts h rest w' in (r :: rs, w'')
      | (Rejected e, w') =>
          let '(rs, w'') := attempts h rest (addDelivered h e w') in (Undefined :: rs, w'')
      end
  end.

(** Events of one burst on watcher [i]: notifications for it, and time
    passing. *)
Definition inBurst (i : nat) (ev : Event) : Prop :=
  match ev with
  | Raw j _ => j = i
  | Elapse dt => 0 <= dt
  end.

Fixpoint elapsed (evs : list Event) : Z :=
  match evs with
  | [] => 0
  | Raw _ _ :: rest => elapsed rest
  | Elapse dt :: rest => dt + elapsed rest
  end.

(** The test [removeFileIfRedundant] runs on every entry of an array. *)
Definition coversFile (w : World) (file entry : string) : bool :=
  if String.eqb entry file then existsSync entry w
  else if endsWithSlash entry then existsSync (entry +:+ file) w
  else false.

(** The [options] a watcher holds are an object or nothing, never an
    array. *)
Definition notArray (o : option Entry) : Prop :=
  match o with
  | Some (ListEntry _) => False
  | _ => True
  end.

(** The files watched, when [live] resolved. *)
Definition watchedFiles (r : option (settled (list Watcher) * World))
  : option (list string) :=
  match r with
  | Some (Fulfilled ws, _) => Some (map file ws)
  | _ => None
  end.

(** A call of the handler of the CSS module. *)
Definition handled (e : Err) (w : World) : World :=
  addDelivered (cssHandleError w) e w.

End Statements.

(** ** More projects *)

Module Scenarios.
Import JsString Runtime Fs Entries Build Fixtures.

(** The pass-through project with its source still in place. *)
Definition withSource : World :=
  onDisk [("/w", Dir); ("/w/a.txt", File "a"); ("/w/dist", Dir); ("/w/dist/out", Dir);
          ("/w/dist/out/a.txt", File "a")].

Definition passThroughMap : MapArg :=
  MapObject (mkAppMap None (Some "dist") (Some [("out/", StringEntry "a.txt")])).

(** A stylesheet output that declares the shared sheet as external. *)
Definition sheets : World :=
  onDisk [("/w", Dir); ("/w/scss", Dir); ("/w/scss/main.scss", File "@import 'lib'");
          ("/w/scss/lib.scss", File "a { b: c }")].

Definition sheetsMap : MapArg :=
  MapObject (mkAppMap None (Some "dist")
               (Some [("main.css",
                       ObjectEntry (StringEntry "scss/main.scss")
                                   (Some ["/w/scss/lib.scss"]) None)])).

End Scenarios.

(** ** The clock prefix of [logged] ([build.js], [padTwoDigits]) *)

Module Clock.
Import JsString.

(** The digit character of a number below ten. *)
Definition digit (d : nat) : ascii := Ascii.ascii_of_nat (48 + d).

(** The decimal text of a non-negative integer, as [String(num)] gives it:
    the digits are produced from the units upwards. *)
Fixpoint decimalFrom (steps num : nat) (acc : string) : string :=
  let acc' := String (digit (num mod 10)) acc in
  match steps with
  | O => acc'
  | S steps' => if Nat.eqb (num / 10) 0 then acc' else decimalFrom steps' (num / 10) acc'
  end.

Definition decimal (num : nat) : string := decimalFrom num num EmptyString.

(** [s.slice(-2)]: the last two characters, the whole text when it is
    shorter. *)
Definition sliceLastTwo (s : string) : string :=
  dropChars (String.length s - 2) s.

(** [padTwoDigits(num)]. *)
Definition padTwoDigits (num : nat) : string :=
  sliceLastTwo ("00" +:+ decimal num).

(** The prefix [logged] puts before its label, from the hours, minutes and
    seconds of [new Date()]. *)
Definition stamp (hours minutes seconds : nat) (label : string) : string :=
  padTwoDigits hours +:+ ":" +:+ padTwoDigits minutes +:+ ":"
  +:+ padTwoDigits seconds +:+ " " +:+ label.

End Clock.

(** ** Relations between worlds *)

Module Invariants.
Import JsString Runtime Fs Entries Build.

(** Nothing was taken from the disk: the working directory is the same, every
    path that named something still does, and every directory is still a
    directory. *)
Definition keeps (w w' : World) : Prop :=
  cwd w' = cwd w
  /\ (forall k, is_Some (disk w !! k) -> is_Some (disk w' !! k))
  /\ (forall k, disk w !! k = Some Dir -> disk w' !! k = Some Dir).


(** A computation keeps the disk when every run of it does. *)
Definition keeping {A} (m : Sync A) : Prop := forall w, keeps w (snd (m w)).

End Invariants.

(** ** Texts in a row *)

Module Texts.

(** The texts of a list put one after the other. *)
Definition concatText (parts : list string) : string :=
  fold_right String.append EmptyString parts.

End Texts.

(** ** Vocabulary for watchers and timers *)

Module Watching.
Import JsString Runtime Fs Entries Build.

(** Whatever a promise fulfils with has the property. *)
Definition yields {A} (P : A -> Prop) (p : Promise A) : Prop :=
  forall w w' a, p w = (Fulfilled a, w') -> P a.

(** A watcher as [live] hands it out for a map: idle, holding an object or
    nothing as its options, for an output of the map and its target. *)
Definition freshFor (target : string) (es : list (string * Entry)) (wt : Watcher) : Prop :=
  timeOut wt = None
  /\ match options wt with
     | Some (ListEntry _) => False
     | _ => True
     end
  /\ targetDir wt = target
  /\ In (output wt) (map fst es).

(** Every pending timer belongs to a watcher whose [timeOut] is set, and no
    watcher has two. *)
Definition oneTimerEach (l : Loop) : Prop :=
  NoDup (map owner (timers l))
  /\ Forall (fun t => exists wt h, watchers l !! owner t = Some wt /\ timeOut wt = Some h)
            (timers l).

End Watching.

(** ** Removing folders ([Static], [removeFolder]) *)

Module Folders.
Import JsString Runtime Fs.

(** [fs.readdirSync(p)]. *)
Definition readdirSync (p : string) : Sync (list string) :=
  fun w => match lookupNode w p with
           | Some Dir => (Returns (childNames w (fsKey (cwd w) p)), w)
           | Some (File _) => (Throws (SystemError "ENOTDIR" p), w)
           | None => (Throws (SystemError "ENOENT" p), w)
           end.

(** [fs.statSync(p).isDirectory()]; the disk holds no links, so it answers
    as [lstatSync] does. *)
Definition statIsDirectory (p : string) : Sync bool := lstatIsDirectory p.

(** [fs.rmdirSync(p)]: only an empty directory, and not the root, can be
    removed. *)
Definition rmdirSync (p : string) : Sync unit :=
  fun w => match lookupNode w p with
           | Some Dir =>
               let k := fsKey (cwd w) p in
               match k with
               | EmptyString => (Throws (SystemError "EBUSY" p), w)
               | _ => match childNames w k with
                      | [] => (Returns tt, setDisk (delete k (disk w)) w)
                      | _ :: _ => (Throws (SystemError "ENOTEMPTY" p), w)
                      end
               end
           | Some (File _) => (Throws (SystemError "ENOTDIR" p), w)
           | None => (Throws (SystemError "ENOENT" p), w)
           end.

(** [removeFolder(path)]. [depth] bounds the nesting of the recursive calls,
    as for [copy]. *)
Fixpoint removeFolder (depth : nat) (path : string) : Sync unit :=
  match depth with
  | O => throw RangeError
  | S depth' =>
      fun w =>
        if existsSync path w then
          bind (readdirSync path) (fun names =>
          bind (forEach (fun file =>
                  let curPath := path +:+ "/" +:+ file in
                  bind (statIsDirectory curPath) (fun isDir =>
                  if isDir then removeFolder depth' curPath
                  else unlinkSync curPath))
                  names) (fun _ =>
          rmdirSync path)) w
        else ret tt w
  end.



End Folders.

(** ** A project whose stylesheets cannot be loaded *)

Module BrokenSheets.
Import JsString Runtime Fs Entries Build Fixtures.


End BrokenSheets.

(** * Theorems *)

Import JsString Runtime Fs Path PathSpec Entries Build Statements Fixtures Scenarios.

(** ** Facts about the string primitives *)

Section StringFacts.
Local Arguments Ascii.eqb : simpl never.
Local Arguments isSlash : simpl never.
Local Arguments startsWith : simpl never.

Lemma app_cons (c : ascii) (s t : string) : String c s +:+ t = String c (s +:+ t).
Proof. reflexivity. Qed.

Lemma app_empty_l (t : string) : EmptyString +:+ t = t.
Proof. reflexivity. Qed.

Lemma app_empty_r (s : string) : s +:+ EmptyString = s.
Proof. induction s as [|c s IH]; [reflexivity|]. rewrite app_cons, IH. reflexivity. Qed.

Lemma app_assoc (a b c : string) : (a +:+ b) +:+ c = a +:+ b +:+ c.
Proof. induction a as [|x a IH]; [reflexivity|]. rewrite !app_cons, IH. reflexivity. Qed.

Lemma isSlash_true (c : ascii) : isSlash c = true -> c = slash.
Proof. unfold isSlash. intros H. apply Ascii.eqb_eq in H. exact H. Qed.

Lemma startsWith_slash (s : string) :
  startsWith "/" s = match s with String c _ => isSlash c | EmptyString => false end.
Proof.
  destruct s as [|c s]; [reflexivity|].
  change (startsWith "/" (String c s)) with (Ascii.eqb "/" c && true).
  unfold isSlash, slash. rewrite Ascii.eqb_sym, andb_true_r. reflexivity.
Qed.

Lemma startsWith_double (s : string) :
  startsWith "//" s =
  match s with String c s' => isSlash c && startsWith "/" s' | EmptyString => false end.
Proof.
  destruct s as [|c s]; [reflexivity|].
  change (startsWith "//" (String c s)) with (Ascii.eqb "/" c && startsWith "/" s).
  unfold isSlash, slash. rewrite Ascii.eqb_sym. reflexivity.
Qed.

Lemma startsWith_app (p s : string) : startsWith p (p +:+ s) = true.
Proof.
  induction p as [|c p IH]; [reflexivity|]. rewrite app_cons.
  change (startsWith (String c p) (String c (p +:+ s)))
    with (Ascii.eqb c c && startsWith p (p +:+ s)).
  rewrite Ascii.eqb_refl, IH. reflexivity.
Qed.

Lemma hasDouble_head (s : string) : hasDoubleSlash s = false -> startsWith "//" s = false.
Proof.
  rewrite startsWith_double. destruct s as [|c s]; [reflexivity|]. simpl.
  intros H. apply orb_false_iff in H. tauto.
Qed.

Lemma replace_unfold (s : string) :
  replace "//" "/" s =
  if startsWith "//" s then "/" +:+ dropChars 2 s
  else match s with
       | EmptyString => EmptyString
       | String c s' => String c (replace "//" "/" s')
       end.
Proof. destruct s; reflexivity. Qed.

(** Without a doubled separator [replace] changes nothing. *)
Lemma replace_no_double (s : string) :
  hasDoubleSlash s = false -> replace "//" "/" s = s.
Proof.
  induction s as [|c s IH]; intros H; [reflexivity|].
  rewrite replace_unfold, (hasDouble_head _ H).
  simpl in H. apply orb_false_iff in H. rewrite IH by tauto. reflexivity.
Qed.

Lemma hasDouble_snoc (s : string) :
  hasDoubleSlash (s +:+ "/") = hasDoubleSlash s || endsWithSlash s.
Proof.
  induction s as [|c s IH]; [reflexivity|].
  rewrite app_cons. simpl hasDoubleSlash. rewrite IH.
  destruct s as [|d s]; [|].
  - rewrite app_empty_l. simpl. destruct (isSlash c); reflexivity.
  - rewrite app_cons, !startsWith_slash. simpl endsWithSlash.
    destruct (isSlash c), (isSlash d), (hasDoubleSlash (String d s)); simpl; try reflexivity.
    all: destruct (endsWithSlash (String d s)); reflexivity.
Qed.

(** The leftmost doubled separator sits where a clean prefix meets it. *)
Lemma replace_at_junction (a r : string) :
  hasDoubleSlash (a +:+ "/") = false ->
  replace "//" "/" (a +:+ "//" +:+ r) = a +:+ "/" +:+ r.
Proof.
  induction a as [|c a IH]; intros H.
  - reflexivity.
  - rewrite app_cons in H. simpl in H. apply orb_false_iff in H. destruct H as [H1 H2].
    change (String c a +:+ "//" +:+ r) with (String c (a +:+ "//" +:+ r)).
    change (String c a +:+ "/" +:+ r) with (String c (a +:+ "/" +:+ r)).
    rewrite replace_unfold, startsWith_double.
    assert (Hhead : isSlash c && startsWith "/" (a +:+ "//" +:+ r) = false).
    { destruct (isSlash c) eqn:Hc; [|reflexivity]. simpl in *.
      destruct a as [|d a]; [discriminate H1|].
      rewrite app_cons, startsWith_slash in *. exact H1. }
    rewrite Hhead, IH by exact H2. reflexivity.
Qed.

Lemma hasDouble_app (a b : string) :
  hasDoubleSlash a = false -> hasDoubleSlash b = false ->
  endsWithSlash a && startsWith "/" b = false ->
  hasDoubleSlash (a +:+ b) = false.
Proof.
  induction a as [|c a IH]; intros Ha Hb Hj; [exact Hb|].
  rewrite app_cons. simpl in Ha |- *. apply orb_false_iff in Ha. destruct Ha as [Ha1 Ha2].
  apply orb_false_iff. split.
  - destruct a as [|d a].
    + rewrite app_empty_l. simpl in Hj. destruct (isSlash c); [exact Hj|reflexivity].
    + rewrite app_cons, startsWith_slash in *. exact Ha1.
  - apply IH; [exact Ha2|exact Hb|].
    destruct a as [|d a]; [reflexivity|]. exact Hj.
Qed.

Lemma strip_trailing_spec (s : string) :
  s <> EmptyString ->
  (if endsWithSlash s then stripTrailingSlash s +:+ "/" else stripTrailingSlash s) = s.
Proof.
  induction s as [|c s IH]; intros Hne; [congruence|].
  destruct s as [|d s].
  - simpl. destruct (isSlash c) eqn:Hc; [|reflexivity].
    apply isSlash_true in Hc. subst c. reflexivity.
  - change (endsWithSlash (String c (String d s))) with (endsWithSlash (String d s)).
    change (stripTrailingSlash (String c (String d s)))
      with (String c (stripTrailingSlash (String d s))).
    specialize (IH ltac:(discriminate)).
    destruct (endsWithSlash (String d s)); [rewrite app_cons|]; rewrite IH; reflexivity.
Qed.

Lemma strip_trailing_clean (s : string) :
  hasDoubleSlash s = false ->
  hasDoubleSlash (stripTrailingSlash s) = false /\ endsWithSlash (stripTrailingSlash s) = false.
Proof.
  induction s as [|c s IH]; intros H; [split; reflexivity|].
  destruct s as [|d s].
  - simpl. destruct (isSlash c) eqn:Hc; simpl; rewrite ?Hc; split; reflexivity.
  - change (stripTrailingSlash (String c (String d s)))
      with (String c (stripTrailingSlash (String d s))).
    simpl in H. apply orb_false_iff in H. destruct H as [H1 H2].
    rewrite startsWith_slash in H1.
    destruct (IH H2) as [I1 I2].
    destruct (stripTrailingSlash (String d s)) as [|e t] eqn:Es.
    + destruct s as [|x s]; simpl in Es.
      * destruct (isSlash d) eqn:Hd; [|discriminate Es].
        rewrite andb_true_r in H1.
        split; [simpl; rewrite H1; reflexivity|simpl; exact H1].
      * discriminate Es.
    + split.
      * simpl. apply orb_false_iff. split; [|exact I1].
        assert (e = d) as ->.
        { destruct s as [|x s]; simpl in Es.
          - destruct (isSlash d); [discriminate|congruence].
          - congruence. }
        rewrite startsWith_slash. exact H1.
      * exact I2.
Qed.

Lemma strip_leading_clean (s : string) :
  hasDoubleSlash s = false ->
  hasDoubleSlash (stripLeadingSlash s) = false /\
  startsWith "/" (stripLeadingSlash s) = false.
Proof.
  intros H. destruct s as [|c s]; [split; reflexivity|].
  simpl in H. apply orb_false_iff in H. destruct H as [H1 H2].
  unfold stripLeadingSlash. destruct (isSlash c) eqn:Hc.
  - split; [exact H2|exact H1].
  - split; [|rewrite startsWith_slash; exact Hc].
    simpl. rewrite Hc, H2. reflexivity.
Qed.

Lemma with_separator (base : string) :
  base <> EmptyString ->
  (if (0 <? Z.of_nat (String.length base)) && negb (endsWithSlash base)
   then base +:+ "/" else base) = (stripTrailingSlash base +:+ "/").
Proof.
  intros Hne. pose proof (strip_trailing_spec base Hne) as Hs.
  assert ((0 <? Z.of_nat (String.length base)) = true) as ->.
  { destruct base; [congruence|]. simpl String.length. apply Z.ltb_lt. lia. }
  destruct (endsWithSlash base); simpl.
  - symmetry. exact Hs.
  - rewrite Hs. reflexivity.
Qed.

(** What [getAbsolutePath] puts after the working directory. *)
Lemma joined_text (base fragment : string) :
  hasDoubleSlash base = false -> hasDoubleSlash fragment = false ->
  replace "//" "/"
    ((if (0 <? Z.of_nat (String.length base)) && negb (endsWithSlash base)
      then base +:+ "/" else base) +:+ fragment)
  = joinOnce base fragment
  /\ hasDoubleSlash (joinOnce base fragment) = false.
Proof.
  intros Hb Hf. destruct base as [|b0 base'] eqn:Eb.
  - simpl. rewrite app_empty_l. split; [apply replace_no_double|]; exact Hf.
  - rewrite <- Eb in *. assert (Hne : base <> EmptyString) by (rewrite Eb; discriminate).
    rewrite (with_separator base Hne).
    assert (joinOnce base fragment
            = stripTrailingSlash base +:+ "/" +:+ stripLeadingSlash fragment) as ->.
    { rewrite Eb. reflexivity. }
    destruct (strip_trailing_clean base Hb) as [Hs1 Hs2].
    destruct (strip_leading_clean fragment Hf) as [Hl1 Hl2].
    set (sb := stripTrailingSlash base) in *.
    assert (Hsb : hasDoubleSlash (sb +:+ "/") = false).
    { rewrite hasDouble_snoc, Hs1, Hs2. reflexivity. }
    split.
    + destruct fragment as [|f0 f'] eqn:Ef.
      * rewrite app_empty_r. simpl stripLeadingSlash.
        apply replace_no_double. exact Hsb.
      * unfold stripLeadingSlash in *. destruct (isSlash f0) eqn:Hf0.
        -- apply isSlash_true in Hf0. subst f0.
           rewrite app_assoc.
           change ("/" +:+ String slash f') with ("//" +:+ f').
           apply replace_at_junction. exact Hsb.
        -- rewrite <- (app_assoc sb "/" (String f0 f')).
           apply replace_no_double. apply hasDouble_app; [exact Hsb|exact Hf|].
           rewrite startsWith_slash, Hf0. apply andb_false_r.
    + rewrite <- app_assoc. apply hasDouble_app; [exact Hsb|exact Hl1|].
      rewrite Hl2. apply andb_false_r.
Qed.

End StringFacts.

(** ** Path resolution and entry resolution *)

Section Resolution.

(** Every path the function returns starts with the working directory. *)
Lemma getAbsolutePath_rooted (cwd base fragment : string) :
  startsWith (cwd +:+ "/") (getAbsolutePath cwd base fragment) = true.
Proof.
  unfold getAbsolutePath. cbv zeta. rewrite <- app_assoc. apply startsWith_app.
Qed.

(** C3, as amended. [getAbsolutePath] always returns a text that starts with
    the working directory and a separator. For a base and a fragment that
    hold no doubled separator themselves, what follows is the two joined with
    exactly one separator between them (none for an empty base), and it
    holds no doubled separator. The function reads its arguments and the
    working directory only. *)
Theorem getAbsolutePath_joins (cwd base fragment : string) :
  startsWith (cwd +:+ "/") (getAbsolutePath cwd base fragment) = true
  /\ (hasDoubleSlash base = false -> hasDoubleSlash fragment = false ->
      getAbsolutePath cwd base fragment = cwd +:+ "/" +:+ joinOnce base fragment
      /\ hasDoubleSlash (joinOnce base fragment) = false).
Proof.
  split; [apply getAbsolutePath_rooted|].
  intros Hb Hf. destruct (joined_text base fragment Hb Hf) as [H1 H2].
  split; [|exact H2]. unfold getAbsolutePath. cbv zeta. rewrite H1. reflexivity.
Qed.

Lemma getAbsolutePath_joins_witness :
  getAbsolutePath "/w" "src" "/app.js" = "/w" +:+ "/" +:+ joinOnce "src" "/app.js"
  /\ hasDoubleSlash (joinOnce "src" "/app.js") = false.
Proof. apply (getAbsolutePath_joins "/w" "src" "/app.js"); reflexivity. Defined.

(** C3, as stated, fails: only the leftmost doubled separator of base and
    fragment is collapsed, and the separator put after the working directory
    is not looked at. *)
Lemma getAbsolutePath_keeps_duplicate :
  getAbsolutePath "/w" "a//b" "/c" = "/w/a/b//c"
  /\ hasDoubleSlash (getAbsolutePath "/w" "a//b" "/c") = true
  /\ getAbsolutePath "/w" "" "/c" = "/w//c".
Proof. repeat split; reflexivity. Qed.

Lemma getMappedEntries_paths (cwd root : string) (entry : Entry) :
  sourcePaths (getMappedEntries cwd root entry)
  = map (getAbsolutePath cwd root) (sourcePaths entry).
Proof. induction entry as [p|l|src IH ext fmt]; simpl; [reflexivity|reflexivity|exact IH]. Qed.

(** C6, as amended. A string or a list resolves to the list of its paths,
    each made absolute under the source root, in the same order; an object
    keeps its shape, its [source] is resolved the same way, and [external]
    and [format] come back as they were given: [external] is not expanded. *)
Theorem getMappedEntries_resolves (cwd root : string) (entry : Entry) :
  sourcePaths (getMappedEntries cwd root entry)
  = map (getAbsolutePath cwd root) (sourcePaths entry)
  /\ Forall (fun p => startsWith (cwd +:+ "/") p = true)
            (sourcePaths (getMappedEntries cwd root entry))
  /\ externalOf (getMappedEntries cwd root entry) = externalOf entry
  /\ formatOf (getMappedEntries cwd root entry) = formatOf entry
  /\ match entry with
     | ObjectEntry src ext fmt =>
         getMappedEntries cwd root entry
         = ObjectEntry (getMappedEntries cwd root src) ext fmt
     | _ =>
         getMappedEntries cwd root entry
         = ListEntry (map (getAbsolutePath cwd root) (sourcePaths entry))
     end.
Proof.
  split; [apply getMappedEntries_paths|]. split.
  - rewrite getMappedEntries_paths. apply Forall_forall. intros p Hp.
    apply list_elem_of_In, in_map_iff in Hp. destruct Hp as [f [<- _]].
    apply getAbsolutePath_rooted.
  - destruct entry; repeat split; reflexivity.
Qed.

(** C6, as stated, fails: the [external] paths of an object come back
    unresolved. *)
Lemma getMappedEntries_keeps_external :
  let resolved :=
    getMappedEntries "/w" "src"
      (ObjectEntry (StringEntry "app.js") (Some ["lib/vendor.js"]) (Some "iife")) in
  sourcePaths resolved = ["/w/src/app.js"]
  /\ externalOf resolved = Some ["lib/vendor.js"]
  /\ externalOf resolved <> Some [getAbsolutePath "/w" "src" "lib/vendor.js"].
Proof. cbv zeta. split; [reflexivity|]. split; [reflexivity|]. discriminate. Qed.

End Resolution.

(** ** The monad of synchronous code *)

Section SyncFacts.

Lemma bind_returns {A B} (m : Sync A) (k : A -> Sync B) (a : A) (w w' : World) :
  m w = (Returns a, w') -> bind m k w = k a w'.
Proof. unfold bind. intros ->. reflexivity. Qed.


End SyncFacts.

(** ** One-shot builds: isolation of failures *)

Section Isolation.
Variable deps : Collaborators.

Lemma caught_settles (h : sink) (p : Promise Result) (w : World) :
  caught h p w =
  match p w with
  | (Fulfilled r, w') => (Fulfilled r, w')
  | (Rejected e, w') => (Fulfilled Undefined, addDelivered h e w')
  end.
Proof. unfold caught, catch_. destruct (p w) as [[r|e] w']; reflexivity. Qed.

(** [Promise.all] over promises that each carry [.catch(handleError)]
    fulfils: every promise is attempted, a rejection is handed to the
    handler and the next promise runs after it. *)
Lemma all_caught_attempts (h : sink) (ps : list (Promise Result)) (w : World) :
  all (map (caught h) ps) w = (Fulfilled (fst (attempts h ps w)), snd (attempts h ps w)).
Proof.
  revert w. induction ps as [|p ps IH]; intros w; [reflexivity|].
  simpl. rewrite caught_settles. destruct (p w) as [[r|e] w1].
  - rewrite IH. destruct (attempts h ps w1). reflexivity.
  - rewrite IH. destruct (attempts h ps (addDelivered h e w1)). reflexivity.
Qed.

Lemma attempts_length (h : sink) (ps : list (Promise Result)) (w : World) :
  length (fst (attempts h ps w)) = length ps.
Proof.
  revert w. induction ps as [|p ps IH]; intros w; [reflexivity|].
  simpl. destruct (p w) as [[r|e] w1].
  - specialize (IH w1). destruct (attempts h ps w1). simpl in *. congruence.
  - specialize (IH (addDelivered h e w1)). destruct (attempts h ps _). simpl in *. congruence.
Qed.

Lemma writeToFile_compiled (target entry : string) (spec : Entry) (trigger : option string)
      (w : World) :
  getFileType entry <> IdFiles ->
  writeToFile deps target entry spec (getFileType entry) trigger w
  = (Returns (compiledJob deps w target entry spec), w).
Proof.
  intros Ht. unfold writeToFile, compiledJob, bind, getWorld.
  destruct (getFileType entry); try reflexivity. congruence.
Qed.

Lemma once_jobs (source target : string) (h : sink) (es : list (string * Entry))
      (w w0 : World) :
  compiledOnly es ->
  mapSync (fun '(entry, spec) =>
             bind (writeToFile deps target entry
                     (getMappedEntries (cwd w0) source spec) (getFileType entry) None)
                  (fun p => ret (caught h p))) es w
  = (Returns (map (caught h)
                  (map (fun e => compiledJob deps w target (fst e)
                                   (getMappedEntries (cwd w0) source (snd e))) es)), w).
Proof.
  induction 1 as [|[entry spec] es Ht _ IH]; [reflexivity|].
  cbn [mapSync fst snd map] in Ht |- *.
  rewrite (bind_returns _ _ _ _ _
             (bind_returns _ _ _ _ _ (writeToFile_compiled _ _ _ _ _ Ht))).
  rewrite (bind_returns _ _ _ _ _ IH). reflexivity.
Qed.

(** X15. What [once] does right: on a map of compiled outputs it returns a
    promise, the promise fulfils with one value per entry whatever the
    compilations did, a rejected entry is handed to [handleError] and the
    entries after it still run. *)
Lemma once_compiled_entries_settle (src tgt : option string) (es : list (string * Entry))
      (h : sink) (w : World) :
  compiledOnly es ->
  let jobs :=
    map (fun e => compiledJob deps w (default EmptyString tgt) (fst e)
                    (getMappedEntries (cwd w) (default EmptyString src) (snd e))) es in
  exists job,
    once deps (MapObject (mkAppMap src tgt (Some es))) h w = (Returns job, w)
    /\ job w = (Fulfilled (fst (attempts h jobs w)), snd (attempts h jobs w))
    /\ length (fst (attempts h jobs w)) = length es.
Proof.
  intros Hes jobs. exists (all (map (caught h) jobs)). split; [|split].
  - unfold once, loadMap.
    rewrite (bind_returns (ret (mkAppMap src tgt (Some es))) _ _ w w eq_refl).
    cbn [entries source target].
    rewrite (bind_returns (ret tt) _ tt w w eq_refl).
    rewrite (bind_returns getWorld _ w w w eq_refl).
    rewrite (bind_returns _ _ _ _ _ (once_jobs _ _ _ _ _ _ Hes)). reflexivity.
  - apply all_caught_attempts.
  - rewrite attempts_length. unfold jobs. apply length_map.
Qed.

(** C2: the code departs from the claim. On a map without [entries], [once]
    throws [ReferenceError] for the undeclared name [mapFile] while it
    builds the error to report: the handler is not called and the world is
    left as it was. *)
Theorem once_without_entries_throws (src tgt : option string) (h : sink) (w : World) :
  once deps (MapObject (mkAppMap src tgt None)) h w = (Throws (ReferenceError "mapFile"), w).
Proof. reflexivity. Qed.

(** [live] never looks at the handler it is given. *)
Lemma live_ignores_handler (m : MapArg) (h h' : sink) :
  live deps m h = live deps m h'.
Proof. reflexivity. Qed.

(** The facade calls [once] with the map alone. *)
Lemma facadeOnce_default (m : MapArg) (w : World) :
  facadeOnce deps m w = once deps m ConsoleError w.
Proof. reflexivity. Qed.

Lemma facadeLive_default (m : MapArg) (w : World) :
  facadeLive deps m w = live deps m ConsoleError w.
Proof. reflexivity. Qed.

End Isolation.

Section IsolationRuns.

Lemma once_compiled_entries_settle_witness :
  exists job,
    once deps scriptsMap (UserHandler 1) scripts = (Returns job, scripts)
    /\ fst (job scripts)
       = Fulfilled [Undefined; Compiled (mkResponse ["/w/app.js"] "bundle of /w/app.js")]
    /\ delivered (snd (job scripts))
       = [(UserHandler 1, BackendError "Could not resolve entry module")].
Proof.
  destruct (once_compiled_entries_settle deps None (Some "dist")
              [("bad.js", StringEntry "bad.js"); ("app.js", StringEntry "app.js")]
              (UserHandler 1) scripts) as (job & Hjob & Hrun & _).
  { repeat constructor; vm_compute; discriminate. }
  exists job. split; [exact Hjob|]. rewrite Hrun. split; vm_compute; reflexivity.
Defined.

(** C1: the code departs from the claim. [live] attaches no handler to the
    promises of [mapFile]: with a script entry whose reference mapping
    fails, the promise it returns rejects and the handler is never called.
    In [once], a pass-through entry fails by throwing out of [copy]: the
    call throws, no promise is returned, the handler is not called and the
    entries after it are not attempted. *)
Theorem live_rejects_when_mapFile_rejects :
  (let r := settle (live deps scriptsMap (UserHandler 1) scripts) in
   outcome r = Some (Rejected (SystemError "ENOENT" "/w/bad.js")) /\ deliveries r = [])
  /\ (let r := once deps staticMap (UserHandler 1) scripts in
      thrown r = Some (SystemError "ENOENT" EmptyString)
      /\ delivered (snd r) = []
      /\ existsSync "dist/app.js" (snd r) = false).
Proof. vm_compute. repeat split; reflexivity. Qed.

(** C8: the code departs from the claim. [onError] stores the handler on the
    instance, on the CSS and on the html backends, and then throws because
    the script backend has no [onError]; a failure of a later [once] through
    the facade is given to [console.error], not to the handler. *)
Theorem facade_once_ignores_user_handler :
  let registration := facadeOnError (UserHandler 7) scripts in
  let r := settle (facadeOnce deps scriptsMap (snd registration)) in
  thrown registration = Some (TypeError "js.onError is not a function")
  /\ buildHandleError (snd registration) = UserHandler 7
  /\ cssHandleError (snd registration) = UserHandler 7
  /\ htmlHandleError (snd registration) = UserHandler 7
  /\ deliveries r = [(ConsoleError, BackendError "Could not resolve entry module")].
Proof. vm_compute. repeat split; reflexivity. Qed.

End IsolationRuns.

(** ** Stale-output reconciliation *)

Section Stale.
Variable deps : Collaborators.

Lemma existsSync_nonEmpty (p : string) (w : World) :
  existsSync p w = true -> nonEmpty p = true.
Proof. destruct p; [discriminate|reflexivity]. Qed.

Lemma endsWithSlash_nonEmpty (p : string) : endsWithSlash p = true -> nonEmpty p = true.
Proof. destruct p; [discriminate|reflexivity]. Qed.

Lemma coversFile_nonEmpty (w : World) (file entry : string) :
  coversFile w file entry = true -> nonEmpty entry = true.
Proof.
  unfold coversFile. destruct (String.eqb entry file).
  - apply existsSync_nonEmpty.
  - destruct (endsWithSlash entry) eqn:He; [|discriminate].
    intros _. apply endsWithSlash_nonEmpty. exact He.
Qed.

(** An entry that [find] returns is a non-empty text, hence truthy. *)
Lemma find_covers (w : World) (file : string) (l : list string) :
  match List.find (coversFile w file) l with
  | Some e => negb (nonEmpty e)
  | None => true
  end = negb (existsb (coversFile w file) l).
Proof.
  induction l as [|e l IH]; [reflexivity|]. simpl.
  destruct (coversFile w file e) eqn:He; [|exact IH].
  rewrite (coversFile_nonEmpty _ _ _ He). reflexivity.
Qed.

(** X16. What [removeFileIfRedundant] does right: given an array of entries, it
    unlinks the copy under [destPath] exactly when no entry covers the file
    and the copy exists, and touches nothing otherwise. *)
Lemma removeFileIfRedundant_array (file : string) (l : list string) (destPath : string)
      (w : World) :
  removeFileIfRedundant file (ListEntry l) destPath w
  = if negb (existsb (coversFile w file) l) && existsSync (destPath +:+ file) w
    then unlinkSync (destPath +:+ file) w
    else (Returns tt, w).
Proof.
  unfold removeFileIfRedundant.
  change (fun entry : string =>
            if String.eqb entry file then existsSync entry w
            else if endsWithSlash entry then existsSync (entry +:+ file) w else false)
    with (coversFile w file).
  rewrite find_covers. reflexivity.
Qed.

Lemma unlinkSync_file (p c : string) (w : World) :
  lookupNode w p = Some (File c) ->
  unlinkSync p w = (Returns tt, setDisk (delete (fsKey (cwd w) p) (disk w)) w).
Proof. unfold unlinkSync. intros ->. reflexivity. Qed.

(** The watchers of one root file hold the [options] they were given. *)
Lemma getWatchers_notArray (root : string) (found : list string) (out target : string)
      (opts : option Entry) (h : sink) :
  notArray opts ->
  Forall (fun wt => notArray (options wt)) (getWatchers root found out target opts h).
Proof.
  intros Ho. unfold getWatchers. apply Forall_forall. intros wt Hin.
  apply list_elem_of_In, in_map_iff in Hin. destruct Hin as [f [<- _]]. exact Ho.
Qed.

(** Every watcher that a promise of [getWatcherPromises] resolves with holds
    an object or nothing as its [options]. *)
Lemma getWatcherPromises_notArray (out target : string) (spec : Entry)
      (mapFunc : string -> option (list string) -> Promise (list string)) (h : sink)
      (w w' : World) (ps : list (Promise (list Watcher))) :
  getWatcherPromises out spec mapFunc target h w = (Returns ps, w') ->
  forall p w1 w2 ws, In p ps -> p w1 = (Fulfilled ws, w2) ->
                     Forall (fun wt => notArray (options wt)) ws.
Proof.
  unfold getWatcherPromises.
  assert (Hgen : forall (opts : option Entry) (ext : option (list string)) (l : list string)
                        p w1 w2 ws,
             notArray opts ->
             In p (map (fun f => then_ (mapFunc f ext) (fun results =>
                                  ret (getWatchers f results out target opts h))) l) ->
             p w1 = (Fulfilled ws, w2) ->
             Forall (fun wt => notArray (options wt)) ws).
  { intros opts ext l p w1 w2 ws Ho Hin Hp.
    apply in_map_iff in Hin. destruct Hin as [f [<- _]].
    unfold then_, promiseOf, ret in Hp.
    destruct (mapFunc f ext w1) as [[found|e] w3]; [|discriminate].
    injection Hp as <- _. apply getWatchers_notArray. exact Ho. }
  destruct spec as [s|l|src ext fmt].
  - discriminate.
  - intros [= <- _] p w1 w2 ws. apply Hgen. exact I.
  - destruct src as [s|l|src' ext' fmt']; try discriminate.
    intros [= <- _] p w1 w2 ws. apply Hgen. exact I.
Qed.

(** X17. The rebuild of a pass-through output, as the timer callback calls it,
    throws before anything is removed or copied. *)
Lemma pass_through_rebuild_throws (wt : Watcher) (path : string) (w : World) :
  getFileType (output wt) = IdFiles -> notArray (options wt) ->
  rebuild deps wt path w = (Throws (TypeError "entries.find is not a function"), w).
Proof.
  intros Ht Ho. unfold rebuild, writeToFile. rewrite Ht.
  destruct (options wt) as [[p|l|src ext fmt]|]; simpl in Ho; try contradiction; reflexivity.
Qed.

End Stale.

Section StaleRuns.

Lemma removeFileIfRedundant_array_run :
  let r := removeFileIfRedundant "a.txt" (ListEntry ["/w/a.txt"]) "dist/out/" orphaned in
  thrown r = None /\ existsSync "dist/out/a.txt" (snd r) = false.
Proof. vm_compute. split; reflexivity. Qed.

Lemma pass_through_rebuild_throws_witness :
  rebuild deps staticWatcher "a.txt" orphaned
  = (Throws (TypeError "entries.find is not a function"), orphaned).
Proof. apply pass_through_rebuild_throws; [reflexivity|exact I]. Defined.

(** C5: the code departs from the claim. [a.txt] was copied to [dist/out/]
    and then deleted; its watcher receives a change event and the timer
    comes due. The callback hands the root file, a string, to
    [removeFileIfRedundant], whose [entries.find] throws: the stale copy
    stays on the disk. *)
Theorem stale_artifact_survives_change_event :
  let after := run deps [Raw 0 "a.txt"; Elapse WATCH_TIMEOUT]
                   (watching orphaned [staticWatcher]) in
  existsSync "/w/a.txt" (world after) = false
  /\ existsSync "dist/out/a.txt" (world after) = true
  /\ uncaught after = [TypeError "entries.find is not a function"].
Proof. vm_compute. repeat split; reflexivity. Qed.

End StaleRuns.

(** ** Debouncing *)

Section Debounce.
Variable deps : Collaborators.

Lemma elapsed_nonneg (i : nat) (evs : list Event) :
  Forall (inBurst i) evs -> 0 <= elapsed evs.
Proof.
  induction 1 as [|ev evs Hev _ IH]; simpl; [lia|].
  destruct ev; simpl in *; lia.
Qed.

Lemma setTimeOut_back (wt : Watcher) (h : nat) :
  timeOut wt = None -> setTimeOut None (setTimeOut (Some h) wt) = wt.
Proof. destruct wt; simpl; intros ->; reflexivity. Qed.

(** While the timer is armed and not yet due, a burst moves the clock
    only. *)
Lemma burst_is_coalesced (i : nat) (evs : list Event) :
  Forall (inBurst i) evs ->
  forall (w : World) (c : Z) (ws : list Watcher) (t : Timer) (n : nat)
         (unc unh : list Err) (wt : Watcher) (h : nat),
    ws !! i = Some wt -> timeOut wt = Some h ->
    c + elapsed evs < due t ->
    run deps evs (mkLoop w c ws [t] n unc unh)
    = mkLoop w (c + elapsed evs) ws [t] n unc unh.
Proof.
  induction 1 as [|ev evs Hev Hevs IH]; intros w c ws t n unc unh wt h Hi Hto Hlt.
  - simpl. rewrite Z.add_0_r. reflexivity.
  - pose proof (elapsed_nonneg i evs Hevs) as Hnn.
    destruct ev as [j p|dt]; simpl in Hev, Hlt |- *.
    + subst j. unfold onRaw. simpl. rewrite Hi, Hto.
      apply (IH w c ws t n unc unh wt h); assumption.
    + unfold elapse. simpl. unfold isDue.
      assert ((due t <=? c + dt) = false) as -> by (apply Z.leb_gt; lia).
      simpl. rewrite (IH w (c + dt) ws t n unc unh wt h) by (assumption || lia).
      f_equal. lia.
Qed.

(** X14. What the listener does right: a burst on an idle watcher, followed by
    the timer coming due, runs the rebuild once, with the path of the first
    notification; when that call returns, the watcher is idle again, so the
    next burst is debounced the same way. *)
Lemma debounce_runs_once (i : nat) (l : Loop) (wt : Watcher) (p0 : string)
      (burst : list Event) (dt : Z) (job : Promise Result) (w1 : World) :
  watchers l !! i = Some wt -> timeOut wt = None -> timers l = [] ->
  Forall (inBurst i) burst ->
  elapsed burst < WATCH_TIMEOUT <= elapsed burst + dt ->
  logged (recompiledLabel (output wt)) (rebuild deps wt p0) (world l) = (Returns job, w1) ->
  run deps (Raw i p0 :: burst ++ [Elapse dt]) l
  = mkLoop (snd (job w1)) (clock l + elapsed burst + dt) (watchers l) []
           (S (nextHandle l)) (uncaught l)
           (unhandled l ++ match fst (job w1) with
                           | Rejected e => [e]
                           | Fulfilled _ => []
                           end).
Proof.
  intros Hi Hto Hti Hb [Hlt Hge] Hrun.
  destruct l as [w c ws ts n unc unh]. simpl in *. subst ts.
  assert (Hlen : (i < length ws)%nat) by (eapply lookup_lt_Some; exact Hi).
  unfold run. simpl. unfold onRaw at 1. simpl. rewrite Hi, Hto. simpl.
  rewrite fold_left_app.
  set (t := mkTimer n (c + WATCH_TIMEOUT) i p0).
  set (wt1 := setTimeOut (Some n) wt).
  pose proof (burst_is_coalesced i burst Hb w c (<[i := wt1]> ws) t (S n) unc unh wt1 n)
    as Hburst.
  unfold run in Hburst. rewrite Hburst; cycle 1.
  { apply list_lookup_insert_eq. exact Hlen. }
  { reflexivity. }
  { simpl. lia. }
  simpl. unfold elapse. simpl. unfold isDue. simpl.
  assert ((c + WATCH_TIMEOUT <=? c + elapsed burst + dt) = true) as ->
      by (apply Z.leb_le; lia).
  simpl. unfold fire. simpl.
  rewrite list_lookup_insert_eq by exact Hlen.
  change (output wt1) with (output wt).
  change (rebuild deps wt1 p0) with (rebuild deps wt p0). rewrite Hrun.
  destruct (job w1) as [outcome w2] eqn:Hjob. simpl.
  rewrite list_insert_insert_eq. unfold wt1.
  rewrite (setTimeOut_back wt n Hto), list_insert_id by exact Hi.
  reflexivity.
Qed.

(** The rebuild of a compiled output returns its promise without
    throwing, so the lemma above applies to every such watcher. *)
Lemma compiled_rebuild_returns (wt : Watcher) (path : string) (w : World) :
  getFileType (output wt) <> IdFiles ->
  exists job,
    logged (recompiledLabel (output wt)) (rebuild deps wt path) w
    = (Returns job, addTimed (recompiledLabel (output wt)) w).
Proof.
  intros Ht. unfold logged, rebuild, writeToFile, bind, modify, getWorld.
  destruct (getFileType (output wt)); [eexists; reflexivity ..|congruence].
Qed.

End Debounce.

Section DebounceRuns.

Lemma debounce_runs_once_witness :
  exists (job : Promise Result) (w1 : World),
    run deps (Raw 0 "app.js" :: [Elapse 100; Raw 0 "app.js"] ++ [Elapse 1900])
        (watching scripts [scriptWatcher])
    = mkLoop (snd (job w1)) 2000 [scriptWatcher] [] 1 []
             (match fst (job w1) with
              | Rejected e => [e]
              | Fulfilled _ => []
              end).
Proof.
  destruct (compiled_rebuild_returns deps scriptWatcher "app.js" scripts) as [job Hjob].
  { vm_compute. discriminate. }
  exists job, (addTimed (recompiledLabel (output scriptWatcher)) scripts).
  apply (debounce_runs_once deps 0 (watching scripts [scriptWatcher]) scriptWatcher "app.js"
           [Elapse 100; Raw 0 "app.js"] 1900 job _ eq_refl eq_refl eq_refl).
  - repeat constructor. vm_compute. discriminate.
  - split; vm_compute; [reflexivity|discriminate].
  - exact Hjob.
Defined.

(** C4: the code departs from the claim. [live] resolves with the watcher
    of [a.txt] for the pass-through output [out/]. Two notifications
    arrive and the timer comes due: the rebuild is started once and throws
    ([entries.find is not a function]) before [timeOut = null] is reached.
    The timer variable stays set, so the next burst arms nothing and no
    further rebuild ever runs. *)
Theorem pass_through_watcher_stays_armed :
  let started := settle (live deps passThroughMap (UserHandler 1) withSource) in
  let first := run deps [Raw 0 "a.txt"; Raw 0 "a.txt"; Elapse WATCH_TIMEOUT]
                   (watching withSource [staticWatcher]) in
  let second := run deps [Raw 0 "a.txt"; Raw 0 "a.txt"; Elapse WATCH_TIMEOUT; Elapse 60000]
                    first in
  outcome started = Some (Fulfilled [staticWatcher])
  /\ timed (world first) = ["Recompiled out/"]
  /\ uncaught first = [TypeError "entries.find is not a function"]
  /\ (timeOut <$> watchers first) = [Some 0%nat]
  /\ timers first = []
  /\ timed (world second) = ["Recompiled out/"]
  /\ timers second = [].
Proof. vm_compute. repeat split; reflexivity. Qed.

End DebounceRuns.

(** ** Copying static files *)

Section Copy.
Local Arguments Ascii.eqb : simpl never.
Local Arguments isSlash : simpl never.

Lemma split_nonempty (s : string) : split s <> [].
Proof.
  induction s as [|c s IH]; simpl; [discriminate|].
  destruct (isSlash c); [discriminate|].
  destruct (split s); [contradiction|discriminate].
Qed.

Lemma split_plain (name : string) : hasSlash name = false -> split name = [name].
Proof.
  induction name as [|c name IH]; intros H; [reflexivity|].
  simpl in H |- *. apply orb_false_iff in H. destruct H as [Hc Hn].
  rewrite Hc, (IH Hn). reflexivity.
Qed.

Lemma split_app (a b : string) : split (a +:+ "/" +:+ b) = split a ++ split b.
Proof.
  induction a as [|c a IH].
  - reflexivity.
  - rewrite app_cons. simpl. rewrite IH. destruct (isSlash c); [reflexivity|].
    pose proof (split_nonempty a) as Hne.
    destruct (split a) as [|h t]; [contradiction|reflexivity].
Qed.

Lemma baseName_of_child (dir name : string) :
  hasSlash name = false -> baseName (dir +:+ "/" +:+ name) = name.
Proof.
  intros H. unfold baseName. rewrite split_app, (split_plain name H).
  apply last_last.
Qed.

(** X18. What [getFileTargt] does right: a target ending in a separator places
    the file under it with its own name; any other target is the
    destination itself. *)
Lemma getFileTargt_places (dir name target : string) :
  hasSlash name = false ->
  Static.getFileTargt (dir +:+ "/" +:+ name) target
  = if endsWithSlash target then target +:+ name else target.
Proof.
  intros H. unfold Static.getFileTargt. rewrite (baseName_of_child dir name H). reflexivity.
Qed.

Lemma getFileTargt_places_witness :
  Static.getFileTargt ("tests/resources" +:+ "/" +:+ "file1.js") "tests/dist/"
  = "tests/dist/file1.js".
Proof. rewrite getFileTargt_places; reflexivity. Defined.

(** X19. The promise of [copy] carries no failure: a file that cannot be copied
    makes the call throw instead. *)
Lemma copy_returns_fulfilled (depth : nat) (source : Entry) (target : string)
      (w w' w1 : World) (job : Promise Result) :
  Static.copy depth source target w = (Returns job, w') ->
  exists n, job w1 = (Fulfilled (Copied n), w1).
Proof.
  unfold Static.copy, bind, ret, throw.
  destruct source as [s|l|src ext fmt].
  - destruct (Static.copyPatterns depth [s] target w) as [[n|e] w2]; [|discriminate].
    intros [= <- _]. exists n. reflexivity.
  - destruct (Static.copyPatterns depth l target w) as [[n|e] w2]; [|discriminate].
    intros [= <- _]. exists n. reflexivity.
  - destruct (Static.validatePathExists (dirPart target) w) as [[[]|e] w2]; discriminate.
Qed.

(** C9: the code departs from the claim. Copying the folder [res/sub], which
    holds [file2.1.html] and the folder [sub2] with [file3.html], into
    [dist/] hands the folder to [copyFileSync], which throws: the target
    directory is made and nothing is copied. Copying the content of the
    folder with the pattern [copy] itself uses in its recursive call,
    [*.*], leaves out [sub2], whose name holds no dot. *)
Theorem copy_folder_throws :
  (let r := Static.copy 64 (StringEntry "res/sub") "dist/" nested in
   thrown r = Some (SystemError "EISDIR" "res/sub")
   /\ paths (snd r) = ["/w"; "/w/dist"; "/w/res"; "/w/res/sub"; "/w/res/sub/file2.1.html";
                       "/w/res/sub/sub2"; "/w/res/sub/sub2/file3.html"])
  /\ (let r := Static.copy 64 (StringEntry "res/sub/*.*") "dist/" nested in
      thrown r = None
      /\ paths (snd r) = ["/w"; "/w/dist"; "/w/dist/file2.1.html"; "/w/res"; "/w/res/sub";
                          "/w/res/sub/file2.1.html"; "/w/res/sub/sub2";
                          "/w/res/sub/sub2/file3.html"]).
Proof. vm_compute. repeat split; reflexivity. Qed.

End Copy.

(** ** Reference discovery and [external] *)

Section External.

(** C7, as amended. For an object entry, [getWatcherPromises] calls the
    [mapFile] of the selected handler with each source and the [external]
    of the entry, whatever the type. The script backend forwards them to
    its reference mapper; the CSS backend and the static-file handler take
    the file name only, so for them the result is the same with or without
    [external]. *)
Theorem external_reaches_js_mapper_only :
  (forall (out target : string) (l : list string) (ext : option (list string))
          (fmt : option string)
          (mapFunc : string -> option (list string) -> Promise (list string))
          (h : sink) (w : World),
      getWatcherPromises out (ObjectEntry (ListEntry l) ext fmt) mapFunc target h w
      = (Returns
           (map (fun file =>
                   then_ (mapFunc file ext) (fun results =>
                     ret (getWatchers file results out target
                            (Some (ObjectEntry (ListEntry l) ext fmt)) h)))
                l), w))
  /\ (forall (mapNested : string -> string -> list string -> Sync (list string))
             (fileName : string) (ext : list string),
         Js.mapFile mapNested fileName (Some ext)
         = promiseOf (mapNested fileName Js.importPattern ext))
  /\ (forall (mapperMap : string -> string -> Sync (list string))
             (fileName : string) (ext : option (list string)),
         Css.mapFile mapperMap fileName ext = Css.mapFile mapperMap fileName None)
  /\ (forall (fileName : string) (ext : option (list string)),
         Static.mapFile fileName ext = Static.mapFile fileName None).
Proof. repeat split. Qed.

(** C7, as stated, fails: a stylesheet output declares the shared sheet as
    external, and the sheet is among the files [live] watches for it. *)
Lemma css_mapFile_returns_excluded_file :
  let r := settle (live deps sheetsMap (UserHandler 1) sheets) in
  watchedFiles r = Some ["/w/scss/main.scss"; "/w/scss/lib.scss"]
  /\ fst (Css.mapFile mapperMap "/w/scss/main.scss" (Some ["/w/scss/lib.scss"]) sheets)
     = Fulfilled ["/w/scss/main.scss"; "/w/scss/lib.scss"].
Proof. vm_compute. split; reflexivity. Qed.

End External.

(** ** The CSS backend *)

Section CssCompile.
Variable mapperLoad : Entry -> string -> Sync Response.
Variable sassRender : string -> Sync string.
Variable prefixProcess : string -> Promise string.
Variable cleanMinify : string -> Sync string.

(** C10. The promise of [css.compile] never rejects. A failure of the load
    goes to the handler of the module and the promise fulfils with no files
    and empty content; a failure of sass goes to the handler and the
    promise fulfils with the pipeline (prefix, then minify) run on the
    empty text; with empty loaded content the file set is returned as it
    is. Should the pipeline itself fail, that failure takes the path of a
    load failure. *)
Theorem css_compile_never_rejects (fileName : Entry) (w : World) :
  (exists r w',
      Css.compile mapperLoad sassRender prefixProcess cleanMinify fileName w
      = (Fulfilled r, w'))
  /\ match mapperLoad fileName Css.importPattern w with
     | (Throws e, w1) =>
         Css.compile mapperLoad sassRender prefixProcess cleanMinify fileName w
         = (Fulfilled (mkResponse [] EmptyString), handled e w1)
     | (Returns fileSet, w1) =>
         if Z.of_nat (String.length (content fileSet)) =? 0
         then Css.compile mapperLoad sassRender prefixProcess cleanMinify fileName w
              = (Fulfilled fileSet, w1)
         else
           let '(css0, w2) :=
             match sassRender (content fileSet) w1 with
             | (Throws e, w2) => (EmptyString, handled e w2)
             | (Returns css0, w2) => (css0, w2)
             end in
           match Css.pipeline prefixProcess cleanMinify css0 w2 with
           | (Fulfilled css, w3) =>
               Css.compile mapperLoad sassRender prefixProcess cleanMinify fileName w
               = (Fulfilled (mkResponse (files fileSet) css), w3)
           | (Rejected e', w3) =>
               Css.compile mapperLoad sassRender prefixProcess cleanMinify fileName w
               = (Fulfilled (mkResponse [] EmptyString), handled e' w3)
           end
     end.
Proof.
  unfold Css.compile, Css.pipeline, Css.loadFile, Css.sass, Css.prefix, Css.minify,
    Css.handleError, handled, catch_, thenP, then_, promiseOf, bind, ret, resolved,
    callHandler, modify.
  destruct (mapperLoad fileName Css.importPattern w) as [[fileSet|e] w1].
  - destruct (Z.of_nat (String.length (content fileSet)) =? 0).
    + split; [eauto|reflexivity].
    + destruct (sassRender (content fileSet) w1) as [[css0|e] w2].
      * destruct (prefixProcess css0 w2) as [[pre|e1] w3].
        -- destruct (cleanMinify pre w3) as [[css|e2] w4]; split; eauto.
        -- split; eauto.
      * destruct (prefixProcess EmptyString _) as [[pre|e1] w3].
        -- destruct (cleanMinify pre w3) as [[css|e2] w4]; split; eauto.
        -- split; eauto.
  - split; eauto.
Qed.

End CssCompile.

Section CssRuns.

(** A sass failure on a loaded sheet: the handler of the module receives
    it and the promise fulfils with empty content. *)
Lemma css_compile_sass_failure :
  let r := Css.compile mapperLoad (fun _ => throw (BackendError "Invalid CSS"))
                       (fun css => resolved css) (fun css => ret css)
                       (ListEntry ["/w/scss/main.scss"]) sheets in
  fst r = Fulfilled (mkResponse ["/w/scss/main.scss"] EmptyString)
  /\ delivered (snd r) = [(ConsoleLog, BackendError "Invalid CSS")].
Proof. vm_compute. split; reflexivity. Qed.

End CssRuns.

(** * Further properties of the code *)

Import Clock Invariants Texts Watching Folders BrokenSheets.

(** ** File types *)

Section FileTypes.
Local Arguments Ascii.eqb : simpl never.

Lemma startsWith_cons (a : ascii) (p : string) (b : ascii) (s : string) :
  startsWith (String a p) (String b s) = Ascii.eqb a b && startsWith p s.
Proof. reflexivity. Qed.

(** Two patterns that differ in one of their first two characters cannot
    both start the same text. *)
Lemma startsWith_clash (a1 a2 b1 b2 : ascii) (p q r : string) :
  (a1 <> b1 \/ a2 <> b2) ->
  startsWith (String a1 (String a2 p)) r = true ->
  startsWith (String b1 (String b2 q)) r = false.
Proof.
  intros Hne H. destruct r as [|c1 [|c2 r]]; try reflexivity.
  - rewrite startsWith_cons in H. apply andb_true_iff in H. destruct H as [_ H].
    discriminate H.
  - rewrite !startsWith_cons in *.
    apply andb_true_iff in H. destruct H as [H1 H]. apply andb_true_iff in H.
    destruct H as [H2 _]. apply Ascii.eqb_eq in H1, H2. subst c1 c2.
    destruct (Ascii.eqb b1 a1) eqn:E1; [|reflexivity].
    destruct (Ascii.eqb b2 a2) eqn:E2; [|reflexivity].
    apply Ascii.eqb_eq in E1, E2. subst. destruct Hne; congruence.
Qed.

Lemma getFileType_tests (fileName : string) :
  getFileType fileName
  = if endsWith ".js" fileName then IdJs
    else if endsWith ".css" fileName then IdCss
    else if endsWith ".html" fileName then IdHtml
    else IdFiles.
Proof.
  unfold getFileType, types. cbn [List.find regExpTest].
  destruct (endsWith ".js" fileName); [reflexivity|].
  destruct (endsWith ".css" fileName); [reflexivity|].
  destruct (endsWith ".html" fileName); [reflexivity|].
  destruct (endsWith "/" fileName); reflexivity.
Qed.

(** X1. The types of the registry exclude one another, so the order of the
    registry decides nothing: a name gets the script, stylesheet or markup
    type exactly when it ends in the extension, and the pass-through type in
    every other case, a trailing separator included. *)
Theorem getFileType_by_extension (fileName : string) :
  (getFileType fileName = IdJs <-> endsWith ".js" fileName = true)
  /\ (getFileType fileName = IdCss <-> endsWith ".css" fileName = true)
  /\ (getFileType fileName = IdHtml <-> endsWith ".html" fileName = true)
  /\ (getFileType fileName = IdFiles <->
      endsWith ".js" fileName = false /\ endsWith ".css" fileName = false
      /\ endsWith ".html" fileName = false).
Proof.
  rewrite getFileType_tests.
  assert (Hjc : endsWith ".js" fileName = true -> endsWith ".css" fileName = false).
  { unfold endsWith. apply (startsWith_clash "s" "j" "s" "s" "." "c.").
    right. discriminate. }
  assert (Hjh : endsWith ".js" fileName = true -> endsWith ".html" fileName = false).
  { unfold endsWith. apply (startsWith_clash "s" "j" "l" "m" "." "th.").
    left. discriminate. }
  assert (Hch : endsWith ".css" fileName = true -> endsWith ".html" fileName = false).
  { unfold endsWith. apply (startsWith_clash "s" "s" "l" "m" "c." "th.").
    left. discriminate. }
  destruct (endsWith ".js" fileName), (endsWith ".css" fileName),
           (endsWith ".html" fileName);
    try (specialize (Hjc eq_refl)); try (specialize (Hjh eq_refl));
    try (specialize (Hch eq_refl)); try discriminate;
    repeat split; intros; try congruence; try (intuition congruence).
Qed.

End FileTypes.

(** ** Maps given by file name *)

Section MapFiles.
Variable deps : Collaborators.

(** X2. Given the name of a map file, [once] and [live] throw [ReferenceError]
    for the undeclared name [fileName] of [readMapFile]: the file is never
    looked for, nothing is built or watched and the world is left as it
    was. *)
Theorem map_file_name_throws (name : string) (h : sink) (w : World) :
  once deps (MapFileName name) h w = (Throws (ReferenceError "fileName"), w)
  /\ live deps (MapFileName name) h w = (Throws (ReferenceError "fileName"), w)
  /\ facadeOnce deps (MapFileName name) w = (Throws (ReferenceError "fileName"), w)
  /\ facadeLive deps (MapFileName name) w = (Throws (ReferenceError "fileName"), w).
Proof. repeat split. Qed.

End MapFiles.

(** ** The clock prefix *)

Section ClockFacts.
Import Clock.

Lemma length_app (a b : string) :
  String.length (a +:+ b) = (String.length a + String.length b)%nat.
Proof. induction a as [|c a IH]; [reflexivity|]. rewrite app_cons. simpl. rewrite IH. reflexivity. Qed.

Lemma length_dropChars (n : nat) (s : string) :
  String.length (dropChars n s) = (String.length s - n)%nat.
Proof.
  revert s. induction n as [|n IH]; intros s; simpl.
  - lia.
  - destruct s as [|c s]; simpl; [reflexivity|]. apply IH.
Qed.

Lemma padTwoDigits_length (num : nat) : String.length (padTwoDigits num) = 2%nat.
Proof.
  unfold padTwoDigits, sliceLastTwo. rewrite length_dropChars, length_app.
  change (String.length "00") with 2%nat. lia.
Qed.

(** X3. [padTwoDigits] always returns two characters; below one hundred they are
    the tens and the units of the number, so one digit gets a leading
    zero. *)
Theorem padTwoDigits_pads (num : nat) :
  String.length (padTwoDigits num) = 2%nat
  /\ ((num < 100)%nat ->
      padTwoDigits num
      = String (digit (num / 10)) (String (digit (num mod 10)) EmptyString)).
Proof.
  split; [apply padTwoDigits_length|].
  intros Hlt.
  do 100 (destruct num as [|num]; [vm_compute; reflexivity|]).
  lia.
Qed.

(** The prefix of [logged] is eight characters and a space. *)
Lemma stamp_length (hours minutes seconds : nat) (label : string) :
  String.length (stamp hours minutes seconds label) = (9 + String.length label)%nat.
Proof.
  unfold stamp. rewrite !length_app, !padTwoDigits_length. reflexivity.
Qed.

Lemma padTwoDigits_pads_witness :
  padTwoDigits 7 = String (digit (7 / 10)) (String (digit (7 mod 10)) EmptyString).
Proof. apply (padTwoDigits_pads 7). lia. Defined.

End ClockFacts.

(** ** Creating directories and copying never delete *)

Section Keeping.
Import Invariants.

Lemma keeps_refl (w : World) : keeps w w.
Proof. repeat split; auto. Qed.

Lemma keeps_trans (w1 w2 w3 : World) : keeps w1 w2 -> keeps w2 w3 -> keeps w1 w3.
Proof.
  intros (Hc1 & Hs1 & Hd1) (Hc2 & Hs2 & Hd2). repeat split.
  - congruence.
  - auto.
  - auto.
Qed.

Lemma keeping_ret {A} (a : A) : keeping (ret a).
Proof. intros w. apply keeps_refl. Qed.

Lemma keeping_throw {A} (e : Err) : keeping (@throw A e).
Proof. intros w. apply keeps_refl. Qed.

Lemma keeping_getWorld : keeping getWorld.
Proof. intros w. apply keeps_refl. Qed.

Lemma keeping_bind {A B} (m : Sync A) (k : A -> Sync B) :
  keeping m -> (forall a, keeping (k a)) -> keeping (bind m k).
Proof.
  intros Hm Hk w. unfold bind. specialize (Hm w).
  destruct (m w) as [[a|e] w1]; simpl in Hm.
  - eapply keeps_trans; [exact Hm|apply Hk].
  - exact Hm.
Qed.

Lemma keeping_forEach {A} (f : A -> Sync unit) (xs : list A) :
  (forall x, keeping (f x)) -> keeping (forEach f xs).
Proof.
  intros Hf. induction xs as [|x xs IH]; simpl.
  - apply keeping_ret.
  - apply keeping_bind; [apply Hf|intros _; exact IH].
Qed.

Lemma nodeAt_None (w : World) (k : string) : nodeAt w k = None -> disk w !! k = None.
Proof. destruct k; [discriminate|]. intros H. exact H. Qed.

Lemma keeps_insert_new (w : World) (k : string) (n : node) :
  disk w !! k = None -> keeps w (setDisk (<[k := n]> (disk w)) w).
Proof.
  intros Hk. repeat split; simpl.
  - intros k' Hs. destruct (decide (k = k')) as [->|Hne].
    + rewrite lookup_insert_eq. eauto.
    + rewrite lookup_insert_ne by exact Hne. exact Hs.
  - intros k' Hd. destruct (decide (k = k')) as [->|Hne].
    + congruence.
    + rewrite lookup_insert_ne by exact Hne. exact Hd.
Qed.

Lemma keeps_insert_file (w : World) (k c : string) :
  disk w !! k <> Some Dir -> keeps w (setDisk (<[k := File c]> (disk w)) w).
Proof.
  intros Hk. repeat split; simpl.
  - intros k' Hs. destruct (decide (k = k')) as [->|Hne].
    + rewrite lookup_insert_eq. eauto.
    + rewrite lookup_insert_ne by exact Hne. exact Hs.
  - intros k' Hd. destruct (decide (k = k')) as [->|Hne].
    + congruence.
    + rewrite lookup_insert_ne by exact Hne. exact Hd.
Qed.

Lemma keeping_mkdirSync (p : string) : keeping (mkdirSync p).
Proof.
  intros w. unfold mkdirSync. destruct p as [|c p]; [apply keeps_refl|].
  destruct (nodeAt w (fsKey (cwd w) (String c p))) eqn:Hn; [apply keeps_refl|].
  destruct (parentIsDir w _); [|apply keeps_refl].
  apply keeps_insert_new, nodeAt_None, Hn.
Qed.

Lemma keeping_putFile (p content : string) : keeping (putFile p content).
Proof.
  intros w. unfold putFile. destruct p as [|c p]; [apply keeps_refl|].
  set (k := fsKey (cwd w) (String c p)).
  assert (Hgen : nodeAt w k <> Some Dir ->
                 keeps w (snd (if endsWithSlash (String c p)
                               then (Throws (SystemError "ENOTDIR" (String c p)), w)
                               else if parentIsDir w k
                                    then (Returns tt, setDisk (<[k := File content]> (disk w)) w)
                                    else (Throws (SystemError "ENOENT" (String c p)), w)))).
  { intros Hn. destruct (endsWithSlash _); [apply keeps_refl|].
    destruct (parentIsDir w k); [|apply keeps_refl].
    apply keeps_insert_file. destruct k; [exfalso; apply Hn; reflexivity|exact Hn]. }
  destruct (nodeAt w k) as [[c0|]|] eqn:Hn.
  - apply Hgen. discriminate.
  - apply keeps_refl.
  - apply Hgen. discriminate.
Qed.

Lemma keeping_copyFileSync (src dst : string) : keeping (copyFileSync src dst).
Proof.
  intros w. unfold copyFileSync.
  destruct (lookupNode w src) as [[c|]|]; [apply keeping_putFile|apply keeps_refl..].
Qed.

Lemma keeping_lstat (p : string) : keeping (lstatIsDirectory p).
Proof.
  intros w. unfold lstatIsDirectory.
  destruct (lookupNode w p) as [[c|]|]; apply keeps_refl.
Qed.

Lemma keeping_validateSegments (folders : list string) (acc : string) :
  keeping (Static.validateSegments acc folders).
Proof.
  revert acc. induction folders as [|f folders IH]; intros acc; simpl.
  - apply keeping_ret.
  - apply keeping_bind; [|intros _; apply IH].
    intros w. destruct (existsSync (acc +:+ f) w); [apply keeps_refl|apply keeping_mkdirSync].
Qed.

Lemma keeping_validatePathExists (path : string) : keeping (Static.validatePathExists path).
Proof. apply keeping_validateSegments. Qed.

Lemma keeping_copyPatterns (depth : nat) :
  forall (sources : list string) (target : string),
    keeping (Static.copyPatterns depth sources target).
Proof.
  induction depth as [|depth IH]; intros sources target; simpl.
  - apply keeping_throw.
  - apply keeping_bind; [apply keeping_validatePathExists|intros _].
    apply keeping_bind; [|intros _; apply keeping_ret].
    apply keeping_forEach. intros source.
    apply keeping_bind; [apply keeping_getWorld|intros w0].
    apply keeping_forEach. intros file.
    apply keeping_bind; [apply keeping_copyFileSync|intros _].
    apply keeping_bind; [apply keeping_lstat|intros isDir].
    destruct isDir; simpl; [|apply keeping_ret].
    apply keeping_bind; [apply IH|intros _; apply keeping_ret].
Qed.

(** X4. [validatePathExists] and [copy] never delete and never turn a directory
    into something else: whether the call returns or throws, every path that
    was on the disk still is, directories are still directories and the
    working directory is the same. *)
Theorem copy_never_deletes (depth : nat) (source : Entry) (target path : string)
        (w : World) :
  keeps w (snd (Static.copy depth source target w))
  /\ keeps w (snd (Static.validatePathExists path w)).
Proof.
  split; [|apply keeping_validatePathExists].
  revert w. change (keeping (Static.copy depth source target)).
  unfold Static.copy. destruct source as [s|l|src ext fmt].
  - apply keeping_bind; [apply keeping_copyPatterns|intros n; apply keeping_ret].
  - apply keeping_bind; [apply keeping_copyPatterns|intros n; apply keeping_ret].
  - apply keeping_bind; [apply keeping_validatePathExists|intros _; apply keeping_throw].
Qed.

End Keeping.

(** ** What [validatePathExists] reaches *)

Section Directories.
Local Arguments Ascii.eqb : simpl never.
Local Arguments isSlash : simpl never.

Lemma join_split (p : string) : join (split p) = p.
Proof.
  induction p as [|c p IH]; [reflexivity|]. simpl.
  destruct (isSlash c) eqn:Hc.
  - apply isSlash_true in Hc. subst c.
    pose proof (split_nonempty p) as Hne.
    destruct (split p) as [|h t] eqn:Es; [contradiction|].
    change (join (EmptyString :: h :: t)) with (EmptyString +:+ "/" +:+ join (h :: t)).
    rewrite IH. reflexivity.
  - pose proof (split_nonempty p) as Hne.
    destruct (split p) as [|h t] eqn:Es; [contradiction|].
    destruct t as [|h' t].
    + simpl in IH |- *. rewrite IH. reflexivity.
    + change (join (String c h :: h' :: t)) with (String c h +:+ "/" +:+ join (h' :: t)).
      change (join (h :: h' :: t)) with (h +:+ "/" +:+ join (h' :: t)) in IH.
      rewrite app_cons, IH. reflexivity.
Qed.

Lemma mkdirSync_exists (p : string) (w w' : World) :
  mkdirSync p w = (Returns tt, w') -> existsSync p w' = true.
Proof.
  unfold mkdirSync, existsSync, lookupNode. destruct p as [|c p]; [discriminate|].
  destruct (nodeAt w (fsKey (cwd w) (String c p))) eqn:Hn; [discriminate|].
  destruct (parentIsDir w _); [|discriminate].
  intros [= <-]. simpl.
  destruct (fsKey (cwd w) (String c p)) as [|k0 k] eqn:Hk; [discriminate Hn|].
  unfold nodeAt. simpl. rewrite lookup_insert_eq. reflexivity.
Qed.

Lemma validateSegments_exists (folders : list string) :
  folders <> [] ->
  forall (acc : string) (w w' : World),
    Static.validateSegments acc folders w = (Returns tt, w') ->
    existsSync (acc +:+ join folders) w' = true.
Proof.
  induction folders as [|f folders IH]; intros Hne acc w w' Hrun; [congruence|].
  simpl in Hrun. unfold bind in Hrun.
  destruct (existsSync (acc +:+ f) w) eqn:He.
  - unfold ret in Hrun. destruct folders as [|g folders].
    + simpl in Hrun. injection Hrun as <-. exact He.
    + change (join (f :: g :: folders)) with (f +:+ "/" +:+ join (g :: folders)).
      rewrite <- app_assoc, <- (app_assoc (acc +:+ f)).
      eapply IH; [discriminate|exact Hrun].
  - destruct (mkdirSync (acc +:+ f) w) as [[[]|e] w1] eqn:Hm; [|discriminate].
    destruct folders as [|g folders].
    + simpl in Hrun. injection Hrun as <-. eapply mkdirSync_exists, Hm.
    + change (join (f :: g :: folders)) with (f +:+ "/" +:+ join (g :: folders)).
      rewrite <- app_assoc, <- (app_assoc (acc +:+ f)).
      eapply IH; [discriminate|exact Hrun].
Qed.

(** X5. When [validatePathExists] returns, the path exists. *)
Theorem validatePathExists_reaches (path : string) (w w' : World) :
  Static.validatePathExists path w = (Returns tt, w') -> existsSync path w' = true.
Proof.
  intros Hrun. unfold Static.validatePathExists in Hrun.
  rewrite <- (join_split path) at 1.
  apply (validateSegments_exists (split path) (split_nonempty path) EmptyString w w' Hrun).
Qed.

Lemma validatePathExists_reaches_witness :
  existsSync "tests/dist"
             (snd (Static.validatePathExists "tests/dist" (onDisk [("/w", Dir)]))) = true.
Proof.
  apply (validatePathExists_reaches "tests/dist" (onDisk [("/w", Dir)])).
  vm_compute. reflexivity.
Defined.

Lemma validateSegments_empty_first (rest : list string) (w : World) :
  Static.validateSegments EmptyString (EmptyString :: rest) w
  = (Throws (SystemError "ENOENT" EmptyString), w).
Proof. reflexivity. Qed.

(** On the empty path and on every path that starts with a separator,
    [validatePathExists] throws at its first segment, the empty text, and
    creates nothing. *)
Lemma validatePathExists_rejects_absolute (path : string) (w : World) :
  path = EmptyString \/ startsWith "/" path = true ->
  Static.validatePathExists path w = (Throws (SystemError "ENOENT" EmptyString), w).
Proof.
  intros [->|H]; [reflexivity|].
  unfold Static.validatePathExists. destruct path as [|c path]; [discriminate H|].
  rewrite startsWith_slash in H. simpl. rewrite H. reflexivity.
Qed.

Lemma validatePathExists_rejects_absolute_witness :
  Static.validatePathExists "/w/dist/out" scripts
  = (Throws (SystemError "ENOENT" EmptyString), scripts).
Proof. apply validatePathExists_rejects_absolute. right. reflexivity. Defined.



End Directories.

Section PassThroughBuilds.
Variable deps : Collaborators.




End PassThroughBuilds.

Section PassThroughRuns.


End PassThroughRuns.

(** ** Compiled outputs reach the disk *)

Section Artifacts.
Variable deps : Collaborators.



End Artifacts.

Section ArtifactRuns.


End ArtifactRuns.

(** ** The script backend *)

Section JsBundles.
Import Texts.
Variable rollupGenerate : string -> string -> list string -> Promise Response.

Lemma all_resolved {A B} (f : A -> Promise B) (g : A -> B) (xs : list A) (w : World) :
  (forall x, In x xs -> f x w = (Fulfilled (g x), w)) ->
  all (map f xs) w = (Fulfilled (map g xs), w).
Proof.
  induction xs as [|x xs IH]; intros H; [reflexivity|].
  simpl. rewrite (H x (or_introl eq_refl)), IH by (intros y Hy; apply H; right; exact Hy).
  reflexivity.
Qed.

Lemma merge_bundles (res : list Response) (fs : list string) (c : string) :
  fold_left (fun memo item =>
               mkResponse (files memo ++ files item) (content memo +:+ content item))
            res (mkResponse fs c)
  = mkResponse (fs ++ concat (map files res)) (c +:+ concatText (map content res)).
Proof.
  revert fs c. induction res as [|r res IH]; intros fs c; simpl.
  - rewrite app_nil_r, app_empty_r. reflexivity.
  - rewrite IH. simpl. rewrite <- List.app_assoc, app_assoc. reflexivity.
Qed.

(** X8. When every input bundles, [loadFiles] fulfils with the module lists and
    the codes of the bundles put together in the order of the input; with no
    input it fulfils with no files and empty content. *)
Theorem js_loadFiles_concatenates (input : list string) (format : string)
        (external : list string) (bundle : string -> Response) (w : World) :
  (forall file, In file input ->
                rollupGenerate file format external w = (Fulfilled (bundle file), w)) ->
  Js.loadFiles rollupGenerate input format external w
  = (Fulfilled (mkResponse (concat (map (fun f => files (bundle f)) input))
                           (concatText (map (fun f => content (bundle f)) input))), w).
Proof.
  intros H. unfold Js.loadFiles, Js.loadFile, then_, promiseOf, ret.
  rewrite (all_resolved (fun file => rollupGenerate file format external) bundle input w H).
  rewrite merge_bundles, !map_map. reflexivity.
Qed.

End JsBundles.

Section JsRuns.
Import Texts.

Lemma js_loadFiles_concatenates_witness :
  Js.loadFiles rollup ["/w/a.js"; "/w/b.js"] "cjs" [] scripts
  = (Fulfilled (mkResponse ["/w/a.js"; "/w/b.js"] "bundle of /w/a.jsbundle of /w/b.js"),
     scripts).
Proof.
  apply (js_loadFiles_concatenates rollup ["/w/a.js"; "/w/b.js"] "cjs" []
           (fun f => mkResponse [f] ("bundle of " +:+ f)) scripts).
  intros file [<-|[<-|[]]]; reflexivity.
Defined.

End JsRuns.

(** ** What [live] resolves with *)

Section LiveWatchers.
Import Watching.
Variable deps : Collaborators.

Lemma yields_all {A} (P : A -> Prop) (ps : list (Promise A)) :
  Forall (yields P) ps -> yields (Forall P) (all ps).
Proof.
  induction 1 as [|p ps Hp _ IH]; intros w w' l Hrun.
  - injection Hrun as <- _. constructor.
  - simpl in Hrun. destruct (p w) as [[a|e] w1] eqn:Hpw; [|discriminate].
    destruct (all ps w1) as [[l'|e] w2] eqn:Hall; [|discriminate].
    injection Hrun as <- _. constructor; [eapply Hp, Hpw|eapply IH, Hall].
Qed.

Lemma getWatcherPromises_fresh (target : string) (es : list (string * Entry))
      (out : string) (spec : Entry)
      (mapFunc : string -> option (list string) -> Promise (list string)) (h : sink)
      (w w' : World) (ps : list (Promise (list Watcher))) :
  In out (map fst es) ->
  getWatcherPromises out spec mapFunc target h w = (Returns ps, w') ->
  Forall (yields (Forall (freshFor target es))) ps.
Proof.
  intros Hout. unfold getWatcherPromises.
  assert (Hgen : forall (opts : option Entry) (ext : option (list string)) (l : list string),
             match opts with Some (ListEntry _) => False | _ => True end ->
             Forall (yields (Forall (freshFor target es)))
                    (map (fun f => then_ (mapFunc f ext) (fun results =>
                                     ret (getWatchers f results out target opts h))) l)).
  { intros opts ext l Ho. apply Forall_forall. intros p Hin.
    apply list_elem_of_In, in_map_iff in Hin. destruct Hin as [f [<- _]].
    intros w1 w2 ws Hp. unfold then_, promiseOf, ret in Hp.
    destruct (mapFunc f ext w1) as [[found|e] w3]; [|discriminate].
    injection Hp as <- _. unfold getWatchers. apply Forall_forall. intros wt Hwt.
    apply list_elem_of_In, in_map_iff in Hwt. destruct Hwt as [g [<- _]].
    repeat split; simpl; assumption. }
  destruct spec as [s|l|src ext fmt].
  - discriminate.
  - intros [= <- _]. apply Hgen. exact I.
  - destruct src as [s|l|src' ext' fmt']; try discriminate.
    intros [= <- _]. apply Hgen. exact I.
Qed.

Lemma mapSync_Forall {A B} (Q : B -> Prop) (f : A -> Sync B) (xs : list A) :
  (forall x w w' b, In x xs -> f x w = (Returns b, w') -> Q b) ->
  forall w w' bs, mapSync f xs w = (Returns bs, w') -> Forall Q bs.
Proof.
  induction xs as [|x xs IH]; intros Hf w w' bs Hrun.
  - injection Hrun as <- _. constructor.
  - simpl in Hrun. unfold bind, ret in Hrun.
    destruct (f x w) as [[b|e] w1] eqn:Hfx; [|discriminate].
    destruct (mapSync f xs w1) as [[bs'|e] w2] eqn:Hrest; [|discriminate].
    injection Hrun as <- _. constructor.
    + eapply Hf; [left; reflexivity|exact Hfx].
    + eapply IH; [|exact Hrest]. intros y v v' b' Hy. apply Hf. right. exact Hy.
Qed.

Lemma Forall_concat_intro {A} (P : A -> Prop) (ls : list (list A)) :
  Forall (Forall P) ls -> Forall P (concat ls).
Proof.
  induction 1 as [|l ls Hl _ IH]; simpl; [constructor|].
  apply Forall_app. split; assumption.
Qed.

Lemma getAbsolutePathes_keys (cwd path : string) (es : list (string * Entry)) :
  map fst (getAbsolutePathes cwd path es) = map fst es.
Proof.
  unfold getAbsolutePathes. induction es as [|[k e] es IH]; [reflexivity|].
  simpl. rewrite IH. reflexivity.
Qed.

(** X9. Every watcher that [live] resolves with is idle, belongs to an output of
    the map, carries the target of the map, and holds as its options the
    object of its entry or nothing, never the array of sources. *)
Theorem live_watchers_are_fresh (src tgt : option string) (es : list (string * Entry))
        (h : sink) (w w0 w1 w' : World) (job : Promise (list Watcher))
        (ws : list Watcher) :
  live deps (MapObject (mkAppMap src tgt (Some es))) h w = (Returns job, w0) ->
  job w1 = (Fulfilled ws, w') ->
  Forall (freshFor (default EmptyString tgt) es) ws.
Proof.
  intros Hlive Hjob. unfold live, loadMap in Hlive.
  rewrite (bind_returns (ret (mkAppMap src tgt (Some es))) _ _ w w eq_refl) in Hlive.
  cbn [entries source target] in Hlive.
  rewrite (bind_returns getWorld _ w w w eq_refl) in Hlive.
  unfold bind at 1 in Hlive.
  destruct (mapSync _ (getAbsolutePathes (cwd w) (default EmptyString src) es) w)
    as [[pss|e] w2] eqn:Hmap; [|discriminate].
  injection Hlive as <- _.
  assert (Hpss : Forall (Forall (yields (Forall (freshFor (default EmptyString tgt) es)))) pss).
  { eapply (mapSync_Forall _ _ _ _ w w2 pss Hmap). Unshelve.
    intros [entry spec] v v' ps Hin Hps.
    eapply (getWatcherPromises_fresh _ es entry spec _ h v v' ps); [|exact Hps].
    rewrite <- (getAbsolutePathes_keys (cwd w) (default EmptyString src) es).
    apply in_map_iff. exists (entry, spec). split; [reflexivity|exact Hin]. }
  unfold then_, promiseOf, ret in Hjob.
  destruct (all (concat pss) w1) as [[wss|e] w3] eqn:Hall; [|discriminate].
  injection Hjob as <- _.
  apply Forall_concat_intro.
  eapply (yields_all _ (concat pss)); [|exact Hall].
  apply Forall_concat_intro. exact Hpss.
Qed.

End LiveWatchers.

Section LiveRuns.
Import Watching.

Lemma live_watchers_are_fresh_witness :
  Forall (freshFor "dist" [("out/", StringEntry "a.txt")]) [staticWatcher].
Proof.
  destruct (live deps passThroughMap (UserHandler 1) withSource) as [[job|e] w0] eqn:Hlive;
    [|vm_compute in Hlive; discriminate Hlive].
  apply (live_watchers_are_fresh deps None (Some "dist") [("out/", StringEntry "a.txt")]
           (UserHandler 1) withSource w0 withSource (snd (job withSource)) job).
  - exact Hlive.
  - revert Hlive. vm_compute. intros [= <- _]. reflexivity.
Defined.

End LiveRuns.

(** ** Timers *)

Section Timers.
Import Watching.
Variable deps : Collaborators.

Lemma fire_timers (t : Timer) (l : Loop) : timers (fire deps t l) = timers l.
Proof.
  unfold fire. destruct (watchers l !! owner t) as [wt|]; [|reflexivity].
  destruct (logged _ _ (world l)) as [[p|e] w1]; [|reflexivity].
  destruct (p w1) as [outcome w2]. reflexivity.
Qed.

Lemma fire_watchers_other (t : Timer) (l : Loop) (j : nat) :
  j <> owner t -> watchers (fire deps t l) !! j = watchers l !! j.
Proof.
  intros Hne. unfold fire. destruct (watchers l !! owner t) as [wt|]; [|reflexivity].
  destruct (logged _ _ (world l)) as [[p|e] w1]; [|reflexivity].
  destruct (p w1) as [outcome w2]. simpl.
  apply list_lookup_insert_ne. congruence.
Qed.

Lemma fired_timers (ts : list Timer) (l : Loop) :
  timers (fold_left (fun acc t => fire deps t acc) ts l) = timers l.
Proof.
  revert l. induction ts as [|t ts IH]; intros l; [reflexivity|].
  simpl. rewrite IH. apply fire_timers.
Qed.

Lemma fired_watchers_other (ts : list Timer) (l : Loop) (j : nat) :
  ~ In j (map owner ts) ->
  watchers (fold_left (fun acc t => fire deps t acc) ts l) !! j = watchers l !! j.
Proof.
  revert l. induction ts as [|t ts IH]; intros l Hj; [reflexivity|].
  simpl in *. rewrite IH by tauto. apply fire_watchers_other. intros ->. tauto.
Qed.

Lemma owners_apart (ts : list Timer) (p : Timer -> bool) (t' : Timer) :
  NoDup (map owner ts) ->
  In t' (List.filter (fun t => negb (p t)) ts) ->
  ~ In (owner t') (map owner (List.filter p ts)).
Proof.
  induction ts as [|t ts IH]; intros Hnd Hin; [contradiction|].
  simpl in Hnd. apply NoDup_cons in Hnd. destruct Hnd as [Hnot Hnd].
  simpl in Hin |- *. destruct (p t) eqn:Hp; simpl in Hin |- *.
  - intros [Heq|Hrest].
    + apply Hnot. rewrite Heq. apply list_elem_of_In, in_map.
      apply filter_In in Hin. tauto.
    + exact (IH Hnd Hin Hrest).
  - destruct Hin as [<-|Hin].
    + intros Hrest. apply Hnot. apply list_elem_of_In.
      apply in_map_iff in Hrest. destruct Hrest as [u [Hu Hin]].
      apply in_map_iff. exists u. split; [exact Hu|]. apply filter_In in Hin. tauto.
    + exact (IH Hnd Hin).
Qed.

Lemma NoDup_owner_filter (ts : list Timer) (p : Timer -> bool) :
  NoDup (map owner ts) -> NoDup (map owner (List.filter p ts)).
Proof.
  induction ts as [|t ts IH]; intros Hnd; [constructor|].
  simpl in Hnd. apply NoDup_cons in Hnd. destruct Hnd as [Hnot Hnd].
  simpl. destruct (p t); [|apply IH, Hnd].
  simpl. apply NoDup_cons. split; [|apply IH, Hnd].
  intros Hin. apply Hnot. apply list_elem_of_In. apply list_elem_of_In in Hin.
  apply in_map_iff in Hin. destruct Hin as [u [Hu Hin]].
  apply in_map_iff. exists u. split; [exact Hu|]. apply filter_In in Hin. tauto.
Qed.

Lemma oneTimerEach_onRaw (i : nat) (path : string) (l : Loop) :
  oneTimerEach l -> oneTimerEach (onRaw i path l).
Proof.
  intros [Hnd Hall]. unfold onRaw.
  destruct (watchers l !! i) as [wt|] eqn:Hi; [|split; assumption].
  destruct (timeOut wt) as [h|] eqn:Hto; [split; assumption|].
  assert (Hlen : (i < length (watchers l))%nat) by (eapply lookup_lt_Some; exact Hi).
  assert (Hfree : ~ In i (map owner (timers l))).
  { intros Hin. apply in_map_iff in Hin. destruct Hin as [t [Ht Hin]].
    rewrite Forall_forall in Hall. apply list_elem_of_In in Hin.
    destruct (Hall t Hin) as (wt' & h & Hwt' & Hh). rewrite Ht, Hi in Hwt'.
    injection Hwt' as <-. congruence. }
  split; simpl.
  - rewrite map_app. simpl. apply NoDup_app. split; [exact Hnd|]. split.
    + intros x Hx Hx1. apply list_elem_of_In in Hx1. destruct Hx1 as [<-|[]].
      apply Hfree. apply list_elem_of_In. exact Hx.
    + apply NoDup_singleton.
  - apply Forall_app. split.
    + rewrite Forall_forall in *. intros t Ht. destruct (Hall t Ht) as (wt' & h & Hwt' & Hh).
      exists wt', h. split; [|exact Hh].
      rewrite list_lookup_insert_ne; [exact Hwt'|].
      intros ->. apply Hfree. apply in_map. apply list_elem_of_In. exact Ht.
    + constructor; [|constructor]. simpl.
      exists (setTimeOut (Some (nextHandle l)) wt), (nextHandle l).
      split; [apply list_lookup_insert_eq; exact Hlen|reflexivity].
Qed.

Lemma oneTimerEach_elapse (dt : Z) (l : Loop) :
  oneTimerEach l -> oneTimerEach (elapse deps dt l).
Proof.
  intros [Hnd Hall]. unfold elapse, oneTimerEach.
  rewrite fired_timers. simpl. split.
  - apply NoDup_owner_filter. exact Hnd.
  - rewrite Forall_forall in *. intros t Ht. apply list_elem_of_In in Ht.
    pose proof (owners_apart (timers l) (isDue (clock l + dt)) t Hnd Ht) as Hapart.
    rewrite (fired_watchers_other _ _ _ Hapart). simpl.
    apply Hall. apply list_elem_of_In. apply filter_In in Ht. tauto.
Qed.

(** X10. Whatever notifications arrive and however time passes after [live]
    resolved, no watcher ever has two timers pending, and a timer is pending
    only for a watcher whose [timeOut] is set. *)
Theorem one_timer_per_watcher (evs : list Event) (w : World) (ws : list Watcher) :
  oneTimerEach (run deps evs (watching w ws)).
Proof.
  assert (Hgen : forall l, oneTimerEach l -> oneTimerEach (run deps evs l)).
  { induction evs as [|ev evs IH]; intros l Hl; [exact Hl|].
    simpl. apply IH. destruct ev as [i path|dt].
    - apply oneTimerEach_onRaw. exact Hl.
    - apply oneTimerEach_elapse. exact Hl. }
  apply Hgen. split; simpl; constructor.
Qed.

End Timers.

(** ** Removing folders *)

Section RemoveFolder.
Import Folders.
Local Arguments Ascii.eqb : simpl never.
Local Arguments isSlash : simpl never.





















End RemoveFolder.

Section RemoveFolderResult.
Import Folders.

Lemma rmdirSync_gone (p : string) (w w' : World) :
  rmdirSync p w = (Returns tt, w') -> existsSync p w' = false.
Proof.
  unfold rmdirSync, existsSync, lookupNode. destruct p as [|c p]; [discriminate|].
  destruct (nodeAt w (fsKey (cwd w) (String c p))) as [[f|]|];
    try (destruct (endsWithSlash (String c p))); try discriminate.
  all: destruct (fsKey (cwd w) (String c p)) as [|k0 k] eqn:Hk; try discriminate.
  all: destruct (childNames w (String k0 k)); try discriminate.
  all: intros [= <-]; simpl; rewrite Hk; unfold nodeAt; simpl;
    rewrite lookup_delete_eq; reflexivity.
Qed.

(** X12. When [removeFolder] returns, the path names nothing: a missing folder is
    left alone, and an existing one is gone. *)
Theorem removeFolder_removes (depth : nat) (path : string) (w w' : World) :
  removeFolder depth path w = (Returns tt, w') -> existsSync path w' = false.
Proof.
  destruct depth as [|depth]; [discriminate|]. cbn [removeFolder].
  destruct (existsSync path w) eqn:He.
  - unfold bind. destruct (readdirSync path w) as [[names|e] w1]; [|discriminate].
    destruct (forEach _ names w1) as [[[]|e] w2]; [|discriminate].
    apply rmdirSync_gone.
  - intros [= <-]. exact He.
Qed.

Lemma removeFolder_removes_witness :
  existsSync "res/sub" (snd (removeFolder 64 "res/sub" nested)) = false.
Proof.
  apply (removeFolder_removes 64 "res/sub" nested). vm_compute. reflexivity.
Defined.


End RemoveFolderResult.

(** ** Copying one file *)

Section CopyOneFile.
Import Invariants.
Local Arguments Ascii.eqb : simpl never.
Local Arguments isSlash : simpl never.





















End CopyOneFile.

Section CopyOneFileRuns.


End CopyOneFileRuns.

Section CopyPromise.

Lemma copy_returns_fulfilled_witness :
  match Static.copy 64 (StringEntry "a.txt") "dist/" withSource with
  | (Returns job, _) => exists n, job scripts = (Fulfilled (Copied n), scripts)
  | (Throws _, _) => False
  end.
Proof.
  destruct (Static.copy 64 (StringEntry "a.txt") "dist/" withSource) as [[job|e] w'] eqn:Hrun.
  - apply (copy_returns_fulfilled 64 (StringEntry "a.txt") "dist/" withSource w' scripts job Hrun).
  - vm_compute in Hrun. discriminate Hrun.
Defined.

End CopyPromise.

(** ** Failures of the backends *)

Section JsCompile.
Variable rollupGenerate : string -> string -> list string -> Promise Response.
Variable babelTransform : string -> Sync string.
Variable uglify : string -> settled string.


End JsCompile.

Section CssFailure.
Variable deps : Collaborators.
Variable mapperLoad : Entry -> string -> Sync Response.
Variable sassRender : string -> Sync string.
Variable prefixProcess : string -> Promise string.
Variable cleanMinify : string -> Sync string.



End CssFailure.

Section CssFailureRuns.


End CssFailureRuns.
